(** * Pinia: devtools bridge and map helpers

    A shallow embedding of the devtools bridge ([addDevtools],
    [devtoolsPlugin], [toastMessage]) and of [src/mapHelpers.ts]
    ([getCachedStore], [setMapStoreSuffix], [mapStores],
    [mapWritableState]).

    JavaScript objects that are shared and mutated in place (stores) live in
    a heap and are passed around by reference; module-level [let] bindings
    are fields of an explicit state; closures are Rocq functions over that
    state. *)

From Stdlib Require Import ZArith.
From stdpp Require Import base option strings list gmap fin_maps.

Open Scope string_scope.

(** ** JavaScript data *)

Set Warnings "-register-all".

(** The values that flow through the two modules: state trees, action
    arguments and results. *)
Inductive Value : Type :=
| VUndefined
| VNull
| VBool (b : bool)
| VNum (n : Z)
| VStr (s : string)
| VArr (items : list Value)
| VObj (fields : list (string * Value)).

(** Object identity of a store, of an application and of a pinia instance. *)
Definition Ref := nat.
Definition App := nat.
Definition Pinia := nat.

(** The [Store] shape both modules consume.  The TypeScript names [$id] and
    [$state] are spelled [_id] and [_state]; [props] holds the remaining own
    properties (the state keys and getters exposed on the store). *)
Record Store : Type := mkStore {
  _id : string;
  _state : Value;
  _getters : option (list string);
  props : gmap string Value
}.

#[global] Instance Store_inhabited : Inhabited Store :=
  populate (mkStore "" VUndefined None ∅).

(** Store objects by reference.  A JavaScript reference always denotes an
    object, so a read goes through the total lookup [h !!! r]. *)
Abbreviation Heap := (gmap Ref Store).

(** [store[key]]: a property that is absent reads as [undefined]. *)
Definition getProp (s : Store) (key : string) : Value :=
  default VUndefined (props s !! key).

(** [store[key] = value] *)
Definition setProp (s : Store) (key : string) (value : Value) : Store :=
  {| _id := _id s; _state := _state s; _getters := _getters s;
     props := <[key := value]> (props s) |}.

(** The characters a string literal writes with a backslash. *)
Definition dquote : string := String (Ascii.ascii_of_nat 34) "".
Definition newline : string := String (Ascii.ascii_of_nat 10) "".
Definition tab : string := String (Ascii.ascii_of_nat 9) "".

(** ** State passing *)

Definition State (S A : Type) : Type := S → A * S.

Definition ret {S A} (a : A) : State S A := λ s, (a, s).
Definition bind {S A B} (m : State S A) (k : A → State S B) : State S B :=
  λ s, let '(a, s') := m s in k a s'.
Definition gets {S A} (f : S → A) : State S A := λ s, (f s, s).
Definition modify {S} (f : S → S) : State S unit := λ s, (tt, f s).

(** stdpp's monad notations: [x ← m; k] and [m;; k]. *)
#[global] Instance State_ret {S} : MRet (State S) := @ret S.
#[global] Instance State_bind {S} : MBind (State S) := λ A B k m, bind m k.

(** ** Map helpers ([src/mapHelpers.ts]) *)

Module MapHelpers.

(** A component instance: the lazily created per-component store cache
    [_pStores] (absent until first use) and the bound pinia [$pinia]. *)
Record Vm : Type := mkVm {
  _pStores : option (gmap string Ref);
  _pinia : Pinia
}.

(** A store factory as [defineStore] returns it: the fixed [$id] and the
    function itself, which looks the store up in (or creates it in) the
    given pinia and returns the store object. *)
Record StoreDefinition : Type := mkDef {
  def_id : string;
  useStore : Pinia → Heap → Ref * Heap
}.

(** What an accessor runs against: [this] and the store objects. *)
Definition St : Type := Vm * Heap.

(** [getCachedStore(vm, useStore)] *)
Definition getCachedStore (d : StoreDefinition) : State St Ref :=
  λ '(vm, h),
    (* const cache = '_pStores' in vm ? vm._pStores! : (vm._pStores = {}) *)
    let cache := match _pStores vm with Some c => c | None => ∅ end in
    let id := def_id d in
    (* cache[id] || (cache[id] = useStore(vm.$pinia)) *)
    match cache !! id with
    | Some r => (r, (mkVm (Some cache) (_pinia vm), h))
    | None =>
        let '(r, h') := useStore d (_pinia vm) h in
        (r, (mkVm (Some (<[id := r]> cache)) (_pinia vm), h'))
    end.

(** The module-level state: [mapStoreSuffix] and the console. *)
Record Globals : Type := mkGlobals {
  mapStoreSuffix : string;
  console : list string
}.

(** [export let mapStoreSuffix = 'Store'] *)
Definition initialGlobals : Globals := mkGlobals "Store" [].

(** [setMapStoreSuffix(suffix)] *)
Definition setMapStoreSuffix (suffix : string) : State Globals unit :=
  modify (λ g, mkGlobals suffix (console g)).

(** One argument of [mapStores]: a store factory, or (the misuse the
    function guards against) an array of factories. *)
Inductive StoreArg : Type :=
| ArgStore (d : StoreDefinition)
| ArgArray (ds : list StoreDefinition).

(** An accessor of [mapStores]; [None] is a thrown [TypeError]. *)
Definition StoreAccessor : Type := St → option (Ref * St).

(** [useStore.$id + mapStoreSuffix]; an array has no [$id], and
    [undefined + suffix] is the string ["undefined"] followed by the
    suffix. *)
Definition accessorKey (suffix : string) (a : StoreArg) : string :=
  match a with
  | ArgStore d => def_id d ++ suffix
  | ArgArray _ => "undefined" ++ suffix
  end.

(** [function () { return getCachedStore(this, useStore) }].  For an
    array, [useStore.$id] is [undefined] and calling [useStore] is a
    [TypeError]. *)
Definition storeAccessor (a : StoreArg) : StoreAccessor :=
  match a with
  | ArgStore d => λ st, Some (getCachedStore d st)
  | ArgArray _ => λ '(vm, h),
      let cache := match _pStores vm with Some c => c | None => ∅ end in
      match cache !! "undefined" with
      | Some r => Some (r, (mkVm (Some cache) (_pinia vm), h))
      | None => None
      end
  end.

Definition mapStoresWarning : string :=
  "[🍍]: Directly pass all stores to " ++ dquote ++ "mapStores()" ++ dquote ++
  " without putting them in an array:" ++ newline ++
  "Replace" ++ newline ++
  tab ++ "mapStores([useAuthStore, useCartStore])" ++ newline ++
  "with" ++ newline ++
  tab ++ "mapStores(useAuthStore, useCartStore)" ++ newline ++
  "This will fail in production if not fixed.".

(** [mapStores(...stores)]; [dev] is the build flag [__DEV__]. *)
Definition mapStores (dev : bool) (stores : list StoreArg)
  : State Globals (gmap string StoreAccessor) :=
  λ g,
    let '(stores, g) :=
      match stores with
      | ArgArray ds :: _ =>
          if dev
          then (ArgStore <$> ds,
                mkGlobals (mapStoreSuffix g) (console g ++ [mapStoresWarning]))
          else (stores, g)
      | _ => (stores, g)
      end in
    (foldl (λ reduced useStore,
              <[accessorKey (mapStoreSuffix g) useStore := storeAccessor useStore]>
                reduced)
           ∅ stores,
     g).

(** The second argument of [mapWritableState]: an array of state keys, or
    an object from output key to state key. *)
Inductive KeysOrMapper : Type :=
| Keys (keys : list string)
| Mapper (m : gmap string string).



(** [Object.keys(o)] *)
Definition objectKeys {A} (o : gmap string A) : list string :=
  (map_to_list o).*1.


(** A value of the object given to [mapState]: the name of a state property
    or getter, or a function of the store, called with the component as
    [this]. *)
Inductive StateSelector : Type :=
| SelectKey (storeKey : string)
| SelectFn (fn : Ref → State St Value).

(** The second argument of [mapState]: an array of names, or an object from
    output key to selector. *)
Inductive StateKeysOrMapper : Type :=
| StateKeys (keys : list string)
| StateMapper (m : gmap string StateSelector).

(** [function () { return getCachedStore(this, useStore)[key] }] *)
Definition stateAccessor (d : StoreDefinition) (key : string) : State St Value :=
  r ← getCachedStore d;
  gets (λ '(_, h), getProp (h !!! r) key).

(** The accessor of the object form: [typeof storeKey === 'function' ?
    storeKey.call(this, store) : store[storeKey]]. *)
Definition selectorAccessor (d : StoreDefinition)
    (keysOrMapper : gmap string StateSelector) (key : string) : State St Value :=
  store ← getCachedStore d;
  match keysOrMapper !! key with
  | Some (SelectFn fn) => fn store
  | Some (SelectKey storeKey) => gets (λ '(_, h), getProp (h !!! store) storeKey)
  | None => gets (λ '(_, h), getProp (h !!! store) "undefined")
  end.

(** [mapState(useStore, keysOrMapper)] *)
Definition mapState (d : StoreDefinition) (keysOrMapper : StateKeysOrMapper)
  : gmap string (State St Value) :=
  match keysOrMapper with
  | StateKeys keys =>
      foldl (λ reduced key, <[key := stateAccessor d key]> reduced) ∅ keys
  | StateMapper m =>
      foldl (λ reduced key, <[key := selectorAccessor d m key]> reduced)
            ∅ (objectKeys m)
  end.

(** [export const mapGetters = mapState] *)
Definition mapGetters := mapState.

(** A function-valued property of a store: the arguments, the result. *)
Definition Method : Type := list Value → State St Value.

(** A method [mapActions] produces; [None] is a thrown [TypeError]. *)
Definition MappedAction : Type := list Value → St → option (Value * St).

(** [function (...args) { return getCachedStore(this, useStore)[key](...args) }];
    [methods] gives the function-valued properties of each store object. *)
Definition actionCaller (methods : Ref → gmap string Method)
    (d : StoreDefinition) (key : string) : MappedAction :=
  λ args st,
    let '(r, st) := getCachedStore d st in
    match methods r !! key with
    | Some action => Some (action args st)
    | None => None
    end.

(** [mapActions(useStore, keysOrMapper)] *)
Definition mapActions (methods : Ref → gmap string Method)
    (d : StoreDefinition) (keysOrMapper : KeysOrMapper)
  : gmap string MappedAction :=
  match keysOrMapper with
  | Keys keys =>
      foldl (λ reduced key, <[key := actionCaller methods d key]> reduced) ∅ keys
  | Mapper m =>
      foldl (λ reduced key,
               <[key := actionCaller methods d (default "undefined" (m !! key))]>
                 reduced)
            ∅ (objectKeys m)
  end.

End MapHelpers.

(** ** Devtools bridge *)

Module Devtools.

(** *** Strings *)

(** [haystack.startsWith(needle)] *)
Fixpoint startsWith (haystack needle : string) : bool :=
  match needle, haystack with
  | "", _ => true
  | String a needle', String b haystack' =>
      if decide (a = b) then startsWith haystack' needle' else false
  | String _ _, "" => false
  end.

(** [haystack.includes(needle)] *)
Fixpoint includes (haystack needle : string) : bool :=
  startsWith haystack needle ||
  match haystack with
  | "" => false
  | String _ haystack' => includes haystack' needle
  end.

(** The string an array of strings converts to inside a template
    literal: its items joined by commas. *)
Fixpoint joinComma (items : list string) : string :=
  match items with
  | [] => ""
  | [s] => s
  | s :: rest => s ++ "," ++ joinComma rest
  end.

(** *** A JavaScript [Map] with string keys, in insertion order *)

Fixpoint Map_get {V} (m : list (string * V)) (key : string) : option V :=
  match m with
  | [] => None
  | (k, v) :: m' => if decide (k = key) then Some v else Map_get m' key
  end.

Definition Map_has {V} (m : list (string * V)) (key : string) : bool :=
  bool_decide (is_Some (Map_get m key)).

Fixpoint Map_set {V} (m : list (string * V)) (key : string) (value : V)
  : list (string * V) :=
  match m with
  | [] => [(key, value)]
  | (k, v) :: m' =>
      if decide (k = key) then (k, value) :: m' else (k, v) :: Map_set m' key value
  end.

Definition Map_values {V} (m : list (string * V)) : list V := m.*2.

(** *** Events and host calls *)

(** The [type] argument of [toastMessage]. *)
Inductive ToastType : Type := normal | error | warning.

Inductive MutationType : Type := direct | patchObject | patchFunction.

Record DebuggerEvent : Type := mkDebuggerEvent {
  de_type : string;
  de_raw : Value
}.

(** [events] of a mutation: absent, one event, or an array of events. *)
Inductive Events : Type :=
| NoEvents
| OneEvent (e : DebuggerEvent)
| ManyEvents (es : list DebuggerEvent).

Record Mutation : Type := mkMutation {
  m_events : Events;
  m_type : MutationType
}.

(** How an action ended: [after(result)] or [onError(error)]. *)
Inductive Outcome : Type :=
| Returned (result : Value)
| Threw (err : Value).

(** The [data] of a timeline event: [{action, args}], [{action, args,
    result}] and [{action, args, error}] for actions; the formatted
    change set, with ['rawEvent(s)'] when there are events, for
    mutations. *)
Inductive EventData : Type :=
| ActionData (action : Value) (args : list Value) (outcome : option Outcome)
| MutationData (formatted : Value) (rawEvents : option Events).

Record TimelineEvent : Type := mkEvent {
  time : Z;
  title : string;
  subtitle : option string;
  data : EventData;
  groupId : option Z;
  logType : option string
}.

(** What reaches the devtools host and the user, in order. *)
Inductive Effect : Type :=
| AddTimelineLayer (id label : string) (color : Z)
| AddInspector (id label icon treeFilterPlaceholder : string)
| SendInspectorTree (inspectorId : string)
| SendInspectorState (inspectorId : string)
| NotifyComponentUpdate
| AddTimelineEvent (layerId : string) (event : TimelineEvent)
| Toast (message : string) (type : option ToastType)
| ConsoleError (message : string)
| ConsoleWarn (message : string)
| ConsoleLog (message : string).

(** *** The state *)

(** The module-level bindings ([registeredStores], [isAlreadyInstalled],
    [isTimelineActive], [componentStateTypes], [runningActionId],
    [activeAction]); the store objects; what the collaborators hold
    ([activePinia] of the root store, the application whose inspector
    handlers were given to [api.on], the stores [$onAction] and
    [$subscribe] were called on, one entry per call, [Date.now()], whether
    [__VUE_DEVTOOLS_TOAST__] is a function); and the effects so far.
    [runningActionId] is a JavaScript number, exact below 2^53. *)
Record World : Type := mkWorld {
  registeredStores : list (string * Ref);
  isAlreadyInstalled : bool;
  isTimelineActive : bool;
  componentStateTypes : list string;
  runningActionId : Z;
  activeAction : option Z;
  heap : Heap;
  activePinia : option Pinia;
  handlersApp : option App;
  actionSubscribers : list Ref;
  mutationSubscribers : list Ref;
  effects : list Effect;
  now : Z;
  toastHost : bool
}.

Definition initialWorld (h : Heap) (clock : Z) (toast : bool) : World :=
  {| registeredStores := []; isAlreadyInstalled := false;
     isTimelineActive := true; componentStateTypes := [];
     runningActionId := 0; activeAction := None; heap := h;
     activePinia := None; handlersApp := None; actionSubscribers := [];
     mutationSubscribers := []; effects := []; now := clock;
     toastHost := toast |}.

Definition register (id : string) (store : Ref) (w : World) : World :=
  {| registeredStores := Map_set (registeredStores w) id store;
     isAlreadyInstalled := isAlreadyInstalled w;
     isTimelineActive := isTimelineActive w;
     componentStateTypes := componentStateTypes w ++ ["🍍 " ++ id];
     runningActionId := runningActionId w; activeAction := activeAction w;
     heap := heap w; activePinia := activePinia w;
     handlersApp := handlersApp w;
     actionSubscribers := actionSubscribers w;
     mutationSubscribers := mutationSubscribers w; effects := effects w;
     now := now w; toastHost := toastHost w |}.

Definition installHandlers (app : App) (w : World) : World :=
  {| registeredStores := registeredStores w;
     isAlreadyInstalled := isAlreadyInstalled w;
     isTimelineActive := isTimelineActive w;
     componentStateTypes := componentStateTypes w;
     runningActionId := runningActionId w; activeAction := activeAction w;
     heap := heap w; activePinia := activePinia w;
     handlersApp := Some app;
     actionSubscribers := actionSubscribers w;
     mutationSubscribers := mutationSubscribers w; effects := effects w;
     now := now w; toastHost := toastHost w |}.

Definition setAlreadyInstalled (b : bool) (w : World) : World :=
  {| registeredStores := registeredStores w;
     isAlreadyInstalled := b;
     isTimelineActive := isTimelineActive w;
     componentStateTypes := componentStateTypes w;
     runningActionId := runningActionId w; activeAction := activeAction w;
     heap := heap w; activePinia := activePinia w;
     handlersApp := handlersApp w;
     actionSubscribers := actionSubscribers w;
     mutationSubscribers := mutationSubscribers w; effects := effects w;
     now := now w; toastHost := toastHost w |}.

Definition setTimelineActive (b : bool) (w : World) : World :=
  {| registeredStores := registeredStores w;
     isAlreadyInstalled := isAlreadyInstalled w;
     isTimelineActive := b;
     componentStateTypes := componentStateTypes w;
     runningActionId := runningActionId w; activeAction := activeAction w;
     heap := heap w; activePinia := activePinia w;
     handlersApp := handlersApp w;
     actionSubscribers := actionSubscribers w;
     mutationSubscribers := mutationSubscribers w; effects := effects w;
     now := now w; toastHost := toastHost w |}.

Definition setRunningActionId (n : Z) (w : World) : World :=
  {| registeredStores := registeredStores w;
     isAlreadyInstalled := isAlreadyInstalled w;
     isTimelineActive := isTimelineActive w;
     componentStateTypes := componentStateTypes w;
     runningActionId := n; activeAction := activeAction w;
     heap := heap w; activePinia := activePinia w;
     handlersApp := handlersApp w;
     actionSubscribers := actionSubscribers w;
     mutationSubscribers := mutationSubscribers w; effects := effects w;
     now := now w; toastHost := toastHost w |}.

Definition setActiveAction (a : option Z) (w : World) : World :=
  {| registeredStores := registeredStores w;
     isAlreadyInstalled := isAlreadyInstalled w;
     isTimelineActive := isTimelineActive w;
     componentStateTypes := componentStateTypes w;
     runningActionId := runningActionId w; activeAction := a;
     heap := heap w; activePinia := activePinia w;
     handlersApp := handlersApp w;
     actionSubscribers := actionSubscribers w;
     mutationSubscribers := mutationSubscribers w; effects := effects w;
     now := now w; toastHost := toastHost w |}.

Definition setHeap (h : Heap) (w : World) : World :=
  {| registeredStores := registeredStores w;
     isAlreadyInstalled := isAlreadyInstalled w;
     isTimelineActive := isTimelineActive w;
     componentStateTypes := componentStateTypes w;
     runningActionId := runningActionId w; activeAction := activeAction w;
     heap := h; activePinia := activePinia w;
     handlersApp := handlersApp w;
     actionSubscribers := actionSubscribers w;
     mutationSubscribers := mutationSubscribers w; effects := effects w;
     now := now w; toastHost := toastHost w |}.

(** [setActivePinia(pinia)] of [../rootStore] *)
Definition setActivePinia (pinia : Pinia) (w : World) : World :=
  {| registeredStores := registeredStores w;
     isAlreadyInstalled := isAlreadyInstalled w;
     isTimelineActive := isTimelineActive w;
     componentStateTypes := componentStateTypes w;
     runningActionId := runningActionId w; activeAction := activeAction w;
     heap := heap w; activePinia := Some pinia;
     handlersApp := handlersApp w;
     actionSubscribers := actionSubscribers w;
     mutationSubscribers := mutationSubscribers w; effects := effects w;
     now := now w; toastHost := toastHost w |}.

(** [store.$onAction(callback)] *)
Definition onAction (store : Ref) (w : World) : World :=
  {| registeredStores := registeredStores w;
     isAlreadyInstalled := isAlreadyInstalled w;
     isTimelineActive := isTimelineActive w;
     componentStateTypes := componentStateTypes w;
     runningActionId := runningActionId w; activeAction := activeAction w;
     heap := heap w; activePinia := activePinia w;
     handlersApp := handlersApp w;
     actionSubscribers := actionSubscribers w ++ [store];
     mutationSubscribers := mutationSubscribers w; effects := effects w;
     now := now w; toastHost := toastHost w |}.

(** [store.$subscribe(callback)] *)
Definition subscribe (store : Ref) (w : World) : World :=
  {| registeredStores := registeredStores w;
     isAlreadyInstalled := isAlreadyInstalled w;
     isTimelineActive := isTimelineActive w;
     componentStateTypes := componentStateTypes w;
     runningActionId := runningActionId w; activeAction := activeAction w;
     heap := heap w; activePinia := activePinia w;
     handlersApp := handlersApp w;
     actionSubscribers := actionSubscribers w;
     mutationSubscribers := mutationSubscribers w ++ [store];
     effects := effects w;
     now := now w; toastHost := toastHost w |}.

(** A call of the host api, or a message to the user. *)
Definition emit (e : Effect) (w : World) : World :=
  {| registeredStores := registeredStores w;
     isAlreadyInstalled := isAlreadyInstalled w;
     isTimelineActive := isTimelineActive w;
     componentStateTypes := componentStateTypes w;
     runningActionId := runningActionId w; activeAction := activeAction w;
     heap := heap w; activePinia := activePinia w;
     handlersApp := handlersApp w;
     actionSubscribers := actionSubscribers w;
     mutationSubscribers := mutationSubscribers w;
     effects := effects w ++ [e];
     now := now w; toastHost := toastHost w |}.

Definition MUTATIONS_LAYER_ID : string := "pinia:mutations".
Definition INSPECTOR_ID : string := "pinia".

(** [toastMessage(message, type)]; [None] is an omitted [type]. *)
Definition toastMessage (message : string) (type : option ToastType)
  : State World unit :=
  λ w,
    let piniaMessage := "🍍 " ++ message in
    if toastHost w then (tt, emit (Toast piniaMessage type) w)
    else match type with
         | Some error => (tt, emit (ConsoleError piniaMessage) w)
         | Some warning => (tt, emit (ConsoleWarn piniaMessage) w)
         | _ => (tt, emit (ConsoleLog piniaMessage) w)
         end.

(** Runs [f] on every item, in order ([Array.prototype.forEach]). *)
Fixpoint forEach {A} (f : A → State World unit) (l : list A) : State World unit :=
  match l with
  | [] => ret tt
  | a :: l' => f a;; forEach f l'
  end.

(** *** Collaborators *)

(** What the bridge imports and does not define: the functions of
    [./formatting], [String.prototype.toLowerCase], and the mutation
    descriptor a store hands to its subscribers for a write at a path. *)
Class Collaborators : Type := {
  formatDisplay : string → Value;
  formatEventData : Events → Value;
  formatMutationType : MutationType → string;
  formatStoreForInspectorState : Store → Value;
  storeLabel : Store → string;
  toLowerCase : string → string;
  writeMutation : Ref → list string → Value → Mutation
}.

Record InspectorNode : Type := mkNode {
  node_id : string;
  node_label : string
}.

Section Bridge.
Context `{Collaborators}.

(** Modelled from the spec: [formatStoreForInspectorTree] of
    [./formatting], which is not among the sources.  The spec: the
    stores are returned "as tree nodes, each carrying the store's id
    and a derived display label". *)
Definition formatStoreForInspectorTree (store : Store) : InspectorNode :=
  {| node_id := _id store; node_label := storeLabel store |}.

(** **** The timeline callbacks *)

(** The callback given to [store.$subscribe]. *)
Definition subscribeCallback (mutation : Mutation) : State World unit :=
  λ w,
    if negb (isTimelineActive w) then (tt, w)
    else
      let w := emit NotifyComponentUpdate w in
      let w := emit (SendInspectorState INSPECTOR_ID) w in
      let eventGroupId := activeAction w in
      (* reset for the next mutation *)
      let w := setActiveAction None w in
      let eventSubtitle :=
        match m_type mutation with
        | patchFunction => Some "⤵️"
        | patchObject => Some "🧩"
        | direct =>
            match m_events mutation with
            | OneEvent e => Some (de_type e)
            | _ => None
            end
        end in
      let raw :=
        match m_events mutation with
        | NoEvents => None
        | evs => Some evs
        end in
      (tt, emit (AddTimelineEvent MUTATIONS_LAYER_ID
                   {| time := now w;
                      title := formatMutationType (m_type mutation);
                      subtitle := eventSubtitle;
                      data := MutationData (formatEventData (m_events mutation)) raw;
                      groupId := eventGroupId;
                      logType := None |}) w).

(** The callbacks an invocation hands to [after] and to [onError]. *)
Record Hooks : Type := mkHooks {
  afterHook : Value → State World unit;
  onErrorHook : Value → State World unit
}.

Definition startEvent (name : string) (args : list Value) (gid : Z) (t : Z)
  : TimelineEvent :=
  {| time := t; title := "🛫 " ++ name; subtitle := Some "start";
     data := ActionData (formatDisplay name) args None;
     groupId := Some gid; logType := None |}.

Definition successEvent (name : string) (args : list Value) (gid : Z) (t : Z)
    (result : Value) : TimelineEvent :=
  {| time := t; title := "🛬 " ++ name; subtitle := Some "end";
     data := ActionData (formatDisplay name) args (Some (Returned result));
     groupId := Some gid; logType := None |}.

Definition errorEvent (name : string) (args : list Value) (gid : Z) (t : Z)
    (err : Value) : TimelineEvent :=
  {| time := t; title := "💥 " ++ name; subtitle := Some "end";
     data := ActionData (formatDisplay name) args (Some (Threw err));
     groupId := Some gid; logType := Some "error" |}.

(** The callback given to [store.$onAction]: it runs before the action
    body and returns what it gave to [after] and [onError]. *)
Definition onActionCallback (name : string) (args : list Value)
  : State World Hooks :=
  λ w,
    (* const groupId = runningActionId++ *)
    let gid := runningActionId w in
    let w := setRunningActionId (gid + 1) w in
    let w := emit (AddTimelineEvent MUTATIONS_LAYER_ID
                     (startEvent name args gid (now w))) w in
    ({| afterHook := λ result,
          modify (λ w, emit (AddTimelineEvent MUTATIONS_LAYER_ID
                               (successEvent name args gid (now w) result)) w);
        onErrorHook := λ err,
          modify (λ w, emit (AddTimelineEvent MUTATIONS_LAYER_ID
                               (errorEvent name args gid (now w) err)) w) |},
     w).

(** **** The store's side of the two subscriptions *)

(** A write to a store runs, synchronously, each callback that was given
    to its [$subscribe]. *)
Definition notifySubscribers (store : Ref) (mutation : Mutation)
  : State World unit :=
  λ w, forEach (λ _, subscribeCallback mutation)
               (filter (λ r, r = store) (mutationSubscribers w)) w.

(** Runs, in order, each callback that was given to a store's
    [$onAction], collecting their hooks. *)
Fixpoint runOnAction (name : string) (args : list Value) (subs : list Ref)
  : State World (list Hooks) :=
  match subs with
  | [] => ret []
  | _ :: subs' =>
      hk ← onActionCallback name args;
      hks ← runOnAction name args subs';
      ret (hk :: hks)
  end.

(** One invocation of an action of a store, by the action-lifecycle
    contract: the [$onAction] callbacks first, then the body, then
    exactly one of the two hooks of each callback. *)
Definition invokeAction (store : Ref) (name : string) (args : list Value)
    (body : State World Outcome) : State World Outcome :=
  subs ← gets (λ w, filter (λ r, r = store) (actionSubscribers w));
  hks ← runOnAction name args subs;
  out ← body;
  match out with
  | Returned result => forEach (λ hk, afterHook hk result) hks
  | Threw err => forEach (λ hk, onErrorHook hk err) hks
  end;;
  ret out.

(** **** Inspector handlers *)

Record TreePayload : Type := mkTreePayload {
  tp_app : App;
  tp_inspectorId : string;
  tp_filter : option string;
  tp_rootNodes : list InspectorNode
}.

(** Truthiness of [payload.filter]: [undefined] and the empty string are
    falsy. *)
Definition filterGiven (f : option string) : option string :=
  match f with
  | Some "" => None
  | other => other
  end.

(** The handler given to [api.on.getInspectorTree]. *)
Definition getInspectorTree (app : App) (payload : TreePayload)
  : State World TreePayload :=
  λ w,
    if decide (tp_app payload = app ∧ tp_inspectorId payload = INSPECTOR_ID)
    then
      let stores := (λ r, heap w !!! r) <$> Map_values (registeredStores w) in
      let shown :=
        match filterGiven (tp_filter payload) with
        | Some f =>
            filter (λ store : Store,
                      includes (toLowerCase (_id store)) (toLowerCase f) = true)
                   stores
        | None => stores
        end in
      ({| tp_app := tp_app payload;
          tp_inspectorId := tp_inspectorId payload;
          tp_filter := tp_filter payload;
          tp_rootNodes := formatStoreForInspectorTree <$> shown |}, w)
    else (payload, w).

(** [payload.state = { options: ... }] *)
Record CustomInspectorState : Type := mkInspectorState {
  options : Value
}.

Record StatePayload : Type := mkStatePayload {
  sp_app : App;
  sp_inspectorId : string;
  sp_nodeId : string;
  sp_state : option CustomInspectorState
}.

Definition notFoundMessage (id : string) : string :=
  "store " ++ dquote ++ id ++ dquote ++ " not found".

(** The handler given to [api.on.getInspectorState]. *)
Definition getInspectorState (app : App) (payload : StatePayload)
  : State World StatePayload :=
  λ w,
    if decide (sp_app payload = app ∧ sp_inspectorId payload = INSPECTOR_ID)
    then
      match Map_get (registeredStores w) (sp_nodeId payload) with
      | None =>
          (payload,
           (toastMessage (notFoundMessage (sp_nodeId payload)) (Some error) w).2)
      | Some store =>
          ({| sp_app := sp_app payload;
              sp_inspectorId := sp_inspectorId payload;
              sp_nodeId := sp_nodeId payload;
              sp_state :=
                Some {| options :=
                          formatStoreForInspectorState (heap w !!! store) |} |},
           w)
      end
    else (payload, w).

(** An edit request; [ep_value] is [payload.state.value] and [ep_set] the
    host's deep setter [payload.set(target, path, value)], here from the
    target object to the object after the write. *)
Record EditPayload : Type := mkEditPayload {
  ep_app : App;
  ep_inspectorId : string;
  ep_nodeId : string;
  ep_path : list string;
  ep_value : Value;
  ep_set : Store → list string → Value → Store
}.

Definition invalidPathMessage (id : string) (path : list string) : string :=
  "Invalid path for store " ++ dquote ++ id ++ dquote ++ ":" ++ newline ++
  joinComma path ++ newline ++ "Only state can be modified.".

(** [path[0] = '$state'] *)
Definition rewriteFirst (path : list string) : list string :=
  match path with
  | [] => ["$state"]
  | _ :: rest => "$state" :: rest
  end.

(** [payload.set(store, path, value)]: the store object is written in
    place, and the write runs the store's subscribers. *)
Definition hostSet (payload : EditPayload) (store : Ref) (path : list string)
  : State World unit :=
  modify (λ w, setHeap (<[store := ep_set payload (heap w !!! store) path
                                      (ep_value payload)]> (heap w)) w);;
  notifySubscribers store (writeMutation store path (ep_value payload)).

Definition withPath (payload : EditPayload) (path : list string) : EditPayload :=
  {| ep_app := ep_app payload; ep_inspectorId := ep_inspectorId payload;
     ep_nodeId := ep_nodeId payload; ep_path := path;
     ep_value := ep_value payload; ep_set := ep_set payload |}.

(** The handler given to [api.on.editInspectorState]. *)
Definition editInspectorState (app : App) (payload : EditPayload)
  : State World EditPayload :=
  λ w,
    if decide (ep_app payload = app ∧ ep_inspectorId payload = INSPECTOR_ID)
    then
      match Map_get (registeredStores w) (ep_nodeId payload) with
      | None =>
          (payload,
           (toastMessage (notFoundMessage (ep_nodeId payload)) (Some error) w).2)
      | Some store =>
          let path := ep_path payload in
          if decide (head path = Some "state")
          then
            (* rewrite the first entry to be able to directly set the
               state as well as any other path *)
            let path := rewriteFirst path in
            let w := setTimelineActive false w in
            let w := (hostSet payload store path w).2 in
            let w := setTimelineActive true w in
            (withPath payload path, w)
          else
            (payload,
             (toastMessage (invalidPathMessage (ep_nodeId payload) path) None w).2)
      end
    else (payload, w).

(** **** Registration *)

(** The setup function [addDevtools] gives to [setupDevtoolsPlugin].  The
    five [api.on] registrations are the field [handlersApp]: the
    handlers close over [app].  [getInspectorTree], [getInspectorState]
    and [editInspectorState] are given above; [inspectComponent] and
    [editComponentState], which serve the component inspector and do not
    look at [app], are given below. *)
Definition setup (app : App) (store : Ref) (hasSubscribed : bool)
  : State World unit :=
  installed ← gets isAlreadyInstalled;
  (if negb installed
   then
     modify (emit (AddTimelineLayer MUTATIONS_LAYER_ID "Pinia 🍍" 15064968));;
     modify (emit (AddInspector INSPECTOR_ID "Pinia 🍍" "storage" "Search stores"));;
     modify (installHandlers app);;
     modify (setAlreadyInstalled true)
   else
     modify (emit (SendInspectorTree INSPECTOR_ID));;
     modify (emit (SendInspectorState INSPECTOR_ID)));;
  (* avoid subscribing to mutations and actions twice *)
  if hasSubscribed then ret tt
  else
    modify (onAction store);;
    modify (subscribe store);;
    (* trigger an update so it can display new registered stores *)
    modify (emit NotifyComponentUpdate);;
    id ← gets (λ w, _id (heap w !!! store));
    toastMessage (dquote ++ id ++ dquote ++ " store installed") None.

(** [setupDevtoolsPlugin(descriptor, setupFn)] of [@vue/devtools-api]:
    the host runs the setup function with its api. *)
Definition setupDevtoolsPlugin (setupFn : State World unit) : State World unit :=
  setupFn.

(** [addDevtools(app, store)] *)
Definition addDevtools (app : App) (store : Ref) : State World unit :=
  λ w,
    let id := _id (heap w !!! store) in
    let hasSubscribed := true in
    let '(hasSubscribed, w) :=
      if negb (Map_has (registeredStores w) id)
      then (true, register id store w)
      else (hasSubscribed, w) in
    setupDevtoolsPlugin (setup app store hasSubscribed) w.

(** **** The action tracking wrapper *)

(** [this] as an action body sees it: property reads and writes. *)
Record ThisObj : Type := mkThis {
  this_get : string → State World Value;
  this_set : string → Value → State World bool
}.

(** A function of the store: [this], the arguments, the result. *)
Definition Action : Type := ThisObj → list Value → State World Value.

(** [Reflect.get(store, key)] *)
Definition Reflect_get (store : Ref) (key : string) : State World Value :=
  gets (λ w, getProp (heap w !!! store) key).

(** [Reflect.set(store, key, value)] *)
Definition Reflect_set (store : Ref) (key : string) (value : Value)
  : State World bool :=
  modify (λ w, setHeap (<[store := setProp (heap w !!! store) key value]> (heap w)) w);;
  notifySubscribers store (writeMutation store [key] value);;
  ret true.

(** [new Proxy(store, { get(...), set(...) })] *)
Definition trackedStore (_actionId : Z) (store : Ref) : ThisObj :=
  {| this_get := λ key,
       modify (setActiveAction (Some _actionId));; Reflect_get store key;
     this_set := λ key value,
       modify (setActiveAction (Some _actionId));; Reflect_set store key value |}.

Record PiniaPluginContext : Type := mkContext {
  ctx_app : App;
  ctx_store : Ref;
  (** the function-valued properties of [store] *)
  ctx_storeMethods : gmap string Action;
  (** [Object.keys(options.actions)], absent when there are none *)
  ctx_optionsActions : option (list string);
  ctx_pinia : Pinia
}.

(** [actions]: the original actions of the store, one entry per declared
    name; [None] is a name the store has no function for. *)
Definition originalActions (ctx : PiniaPluginContext)
  : gmap string (option Action) :=
  foldl (λ storeActions actionName,
           <[actionName := ctx_storeMethods ctx !! actionName]> storeActions)
        ∅ (default [] (ctx_optionsActions ctx)).

(** A wrapped action; [None] is a thrown [TypeError]. *)
Definition Wrapped : Type := list Value → World → option (Value * World).

(** [wrappedActions[actionName] = function () { ... }] *)
Definition wrappedAction (ctx : PiniaPluginContext)
    (actions : gmap string (option Action)) (actionName : string) : Wrapped :=
  λ arguments w,
    let w := setActivePinia (ctx_pinia ctx) w in
    (* the running action id is incremented in a before action hook *)
    let _actionId := runningActionId w in
    let tracked := trackedStore _actionId (ctx_store ctx) in
    match actions !! actionName with
    | Some (Some original) => Some (original tracked arguments w)
    | _ => None
    end.

(** [devtoolsPlugin({ app, store, options, pinia })] *)
Definition devtoolsPlugin (ctx : PiniaPluginContext)
  : State World (gmap string Wrapped) :=
  let actions := originalActions ctx in
  let wrappedActions :=
    foldl (λ wrapped actionName,
             <[actionName := wrappedAction ctx actions actionName]> wrapped)
          ∅ (map_to_list actions).*1 in
  addDevtools (ctx_app ctx) (ctx_store ctx);;
  ret wrappedActions.

(** **** The component inspector *)

(** A group of [payload.instanceData.state]. *)
Record StateEntry : Type := mkEntry {
  se_type : string;
  se_key : string;
  se_editable : bool;
  se_value : Value
}.

(** An inspect-component request: [ip_pStores] is
    [payload.componentInstance?.proxy?._pStores], absent when a link of the
    chain is, and given by the stores [Object.values] enumerates; [ip_state]
    is [payload.instanceData.state]. *)
Record InspectPayload : Type := mkInspect {
  ip_pStores : option (list Ref);
  ip_state : list StateEntry
}.

(** [object[key] = value] on an object given by its properties in
    insertion order. *)
Fixpoint objSet (fields : list (string * Value)) (key : string) (value : Value)
  : list (string * Value) :=
  match fields with
  | [] => [(key, value)]
  | (k, x) :: rest =>
      if decide (k = key) then (k, value) :: rest
      else (k, x) :: objSet rest key value
  end.

(** [store._getters.reduce((getters, key) => { getters[key] = store[key];
    return getters }, {})] *)
Definition gettersOf (store : Store) (names : list string) : Value :=
  VObj (foldl (λ getters key, objSet getters key (getProp store key)) [] names).

(** What the handler pushes for one store: its state and, if
    [store._getters?.length] is truthy, its getters. *)
Definition entriesOf (store : Store) : list StateEntry :=
  {| se_type := "🍍 " ++ _id store; se_key := "state"; se_editable := true;
     se_value := _state store |} ::
  match _getters store with
  | Some (name :: names) =>
      [ {| se_type := "🍍 " ++ _id store; se_key := "getters";
           se_editable := false;
           se_value := gettersOf store (name :: names) |} ]
  | _ => []
  end.

(** The handler given to [api.on.inspectComponent]. *)
Definition inspectComponent (payload : InspectPayload) : State World InspectPayload :=
  λ w,
    match ip_pStores payload with
    | Some piniaStores =>
        ({| ip_pStores := ip_pStores payload;
            ip_state :=
              ip_state payload ++
              concat ((λ store, entriesOf (heap w !!! store)) <$> piniaStores) |},
         w)
    | None => (payload, w)
    end.

(** The value of a byte. *)
Definition code (a : Ascii.ascii) : nat := Ascii.nat_of_ascii a.

(** The class [\s] of a regular expression, on the UTF-8 bytes of a string:
    tab, line feed, vertical tab, form feed, carriage return and space;
    U+00A0; U+1680, U+2000 to U+200A, U+2028, U+2029, U+202F, U+205F, U+3000
    and U+FEFF. *)
Definition isSpace1 (a : Ascii.ascii) : bool :=
  bool_decide (code a = 32 ∨ (9 ≤ code a ∧ code a ≤ 13))%nat.

Definition isSpace2 (a b : Ascii.ascii) : bool :=
  bool_decide (code a = 194 ∧ code b = 160)%nat.

Definition isSpace3 (a b c : Ascii.ascii) : bool :=
  bool_decide
    ((code a = 225 ∧ code b = 154 ∧ code c = 128) ∨
     (code a = 226 ∧ code b = 128 ∧
      ((128 ≤ code c ∧ code c ≤ 138) ∨ code c = 168 ∨ code c = 169 ∨ code c = 175)) ∨
     (code a = 226 ∧ code b = 129 ∧ code c = 159) ∨
     (code a = 227 ∧ code b = 128 ∧ code c = 128) ∨
     (code a = 239 ∧ code b = 187 ∧ code c = 191))%nat.

(** What [\s*] leaves at the start of a string. *)
Fixpoint skipSpaces (s : string) : string :=
  match s with
  | "" => ""
  | String a s1 =>
      if isSpace1 a then skipSpaces s1
      else
        match s1 with
        | "" => s
        | String b s2 =>
            if isSpace2 a b then skipSpaces s2
            else
              match s2 with
              | "" => s
              | String c s3 => if isSpace3 a b c then skipSpaces s3 else s
              end
        end
  end.

(** The string without its first [n] bytes. *)
Fixpoint dropBytes (n : nat) (s : string) : string :=
  match n, s with
  | S n', String _ s' => dropBytes n' s'
  | _, _ => s
  end.

(** [type.replace(/^🍍\s*/, '')] *)
Definition storeIdOfType (type : string) : string :=
  if startsWith type "🍍"
  then skipSpaces (dropBytes (String.length "🍍") type)
  else type.

(** An edit-component-state request; [cp_value] is [payload.state.value]
    and [cp_set] the host's deep setter. *)
Record ComponentEditPayload : Type := mkComponentEdit {
  cp_type : string;
  cp_path : list string;
  cp_value : Value;
  cp_set : Store → list string → Value → Store
}.

(** [payload.set(store, path, payload.state.value)], as for the
    inspector. *)
Definition componentSet (payload : ComponentEditPayload) (store : Ref)
    (path : list string) : State World unit :=
  modify (λ w, setHeap (<[store := cp_set payload (heap w !!! store) path
                                      (cp_value payload)]> (heap w)) w);;
  notifySubscribers store (writeMutation store path (cp_value payload)).

(** The handler given to [api.on.editComponentState]. *)
Definition editComponentState (payload : ComponentEditPayload)
  : State World ComponentEditPayload :=
  λ w,
    if startsWith (cp_type payload) "🍍"
    then
      let storeId := storeIdOfType (cp_type payload) in
      match Map_get (registeredStores w) storeId with
      | None => (payload, (toastMessage (notFoundMessage storeId) (Some error) w).2)
      | Some store =>
          let path := cp_path payload in
          if decide (head path = Some "state")
          then
            let path := rewriteFirst path in
            let w := setTimelineActive false w in
            let w := (componentSet payload store path w).2 in
            let w := setTimelineActive true w in
            ({| cp_type := cp_type payload; cp_path := path;
                cp_value := cp_value payload; cp_set := cp_set payload |}, w)
          else
            (payload, (toastMessage (invalidPathMessage storeId path) None w).2)
      end
    else (payload, w).

End Bridge.

End Devtools.

(** ** Sample data *)

(** Concrete stores, factories and collaborators on which the definitions
    are run. *)
Module Samples.
Import Devtools.

(** Lower case of the letters A to Z; other characters are kept. *)
Definition lowerAscii (a : Ascii.ascii) : Ascii.ascii :=
  let n := Ascii.nat_of_ascii a in
  if decide (65 ≤ n ∧ n ≤ 90)%nat then Ascii.ascii_of_nat (n + 32) else a.

Fixpoint lowerCase (s : string) : string :=
  match s with
  | "" => ""
  | String a s' => String (lowerAscii a) (lowerCase s')
  end.

Definition mutationTypeName (t : MutationType) : string :=
  match t with
  | direct => "direct"
  | patchObject => "patch object"
  | patchFunction => "patch function"
  end.

#[global] Instance collaborators : Collaborators :=
  {| formatDisplay := VStr;
     formatEventData := λ _, VObj [];
     formatMutationType := mutationTypeName;
     formatStoreForInspectorState := _state;
     storeLabel := _id;
     toLowerCase := lowerCase;
     writeMutation := λ _ _ _, mkMutation NoEvents direct |}.

Definition counter : Store :=
  mkStore "counter" (VObj [("count", VNum 0)]) None {["count" := VNum 0]}.

Definition cart : Store :=
  mkStore "Cart" (VObj [("items", VArr [])]) None {["items" := VArr []]}.

(** The store objects: [counter] at 0, [cart] at 1. *)
Definition stores : Heap := <[0 := counter]> (<[1 := cart]> ∅).

Fixpoint setField (fields : list (string * Value)) (key : string) (v : Value)
  : list (string * Value) :=
  match fields with
  | [] => [(key, v)]
  | (k, x) :: rest =>
      if decide (k = key) then (k, v) :: rest else (k, x) :: setField rest key v
  end.

(** A deep setter for paths of the shape [$state.key]. *)
Definition deepSet (target : Store) (path : list string) (v : Value) : Store :=
  match path with
  | ["$state"; key] =>
      mkStore (_id target)
        (match _state target with
         | VObj fields => VObj (setField fields key v)
         | _ => VObj [(key, v)]
         end)
        (_getters target) (<[key := v]> (props target))
  | _ => target
  end.

(** After [addDevtools(app 7, counter)] and [addDevtools(app 7, cart)]. *)
Definition installed (toast : bool) : World :=
  (addDevtools 7 1 (addDevtools 7 0 (initialWorld stores 1000 toast)).2).2.

Definition useCounter : MapHelpers.StoreDefinition :=
  MapHelpers.mkDef "counter" (λ _ h, (0, h)).

Definition useCart : MapHelpers.StoreDefinition :=
  MapHelpers.mkDef "Cart" (λ _ h, (1, h)).

(** A component that has not used any store yet. *)
Definition component : MapHelpers.Vm := MapHelpers.mkVm None 3.

(** The request [editInspectorState] gets for [counter.count := 5]. *)
Definition editCount : EditPayload :=
  mkEditPayload 7 "pinia" "counter" ["state"; "count"] (VNum 5) deepSet.

(** The same with a path into the options. *)
Definition editOptions : EditPayload :=
  mkEditPayload 7 "pinia" "counter" ["options"; "foo"] (VNum 5) deepSet.

(** An action that adds its first argument to [this.count]. *)
Definition add : Action :=
  λ this args,
    old ← this_get this "count";
    let sum :=
      match old, args with
      | VNum a, VNum b :: _ => VNum (a + b)
      | _, _ => VUndefined
      end in
    this_set this "count" sum;;
    mret sum.





(** The method [increment] of [counter]: adds its argument to the count. *)
Definition increment : MapHelpers.Method :=
  λ args st,
    match args, getProp (st.2 !!! 0) "count" with
    | [VNum by_], VNum n =>
        (VNum (n + by_),
         (st.1, <[0 := setProp (st.2 !!! 0) "count" (VNum (n + by_))]> st.2))
    | _, _ => (VUndefined, st)
    end.

Definition counterMethods : Ref → gmap string MapHelpers.Method :=
  λ _, {["increment" := increment]}.

Definition renamed : gmap string string :=
  {["moar" := "increment"; "gone" := "reset"]}.

(** The stores with a second store object of id [counter], at 2, and a
    store whose id starts with a space, at 3. *)
Definition storesMore : Heap :=
  <[2 := mkStore "counter" (VObj [("count", VNum 9)]) None ∅]>
    (<[3 := mkStore " draft" (VObj []) None ∅]> stores).


End Samples.

(** * Properties *)

(** ** Folds that build an object key by key *)

Section FoldInsert.
Context {A B : Type} (key : A → string) (val : A → B).

Definition foldInsert (init : gmap string B) (l : list A) : gmap string B :=
  foldl (λ reduced a, <[key a := val a]> reduced) init l.

Lemma foldInsert_snoc init l a :
  foldInsert init (l ++ [a]) = <[key a := val a]> (foldInsert init l).
Proof. unfold foldInsert. by rewrite foldl_app. Qed.

Lemma foldInsert_lookup_notin init l k :
  k ∉ key <$> l → foldInsert init l !! k = init !! k.
Proof.
  induction l as [|a l IH] using rev_ind; [done|].
  rewrite fmap_app, foldInsert_snoc. intros Hk.
  rewrite lookup_insert_ne; [apply IH|]; set_solver.
Qed.

Lemma foldInsert_lookup_in init l k :
  k ∈ key <$> l →
  ∃ a, a ∈ l ∧ key a = k ∧ foldInsert init l !! k = Some (val a).
Proof.
  induction l as [|a l IH] using rev_ind; [set_solver|].
  rewrite fmap_app, foldInsert_snoc. intros Hk.
  destruct (decide (key a = k)) as [<-|Hne].
  - exists a. rewrite lookup_insert_eq. set_solver.
  - destruct IH as (a' & ? & ? & ?); [set_solver|].
    exists a'. rewrite lookup_insert_ne by done. set_solver.
Qed.



End FoldInsert.

(** Appending a fixed suffix is injective. *)
Lemma string_app_length (s t : string) :
  String.length (s ++ t) = String.length s + String.length t.
Proof. induction s as [|a s IH]; simpl; [done|by rewrite IH]. Qed.

Lemma string_app_inj_r (t s1 s2 : string) : s1 ++ t = s2 ++ t → s1 = s2.
Proof.
  revert s2. induction s1 as [|a s1 IH]; intros [|b s2] Heq.
  - done.
  - apply (f_equal String.length) in Heq.
    rewrite !string_app_length in Heq. simpl in Heq. lia.
  - apply (f_equal String.length) in Heq.
    rewrite !string_app_length in Heq. simpl in Heq. lia.
  - injection Heq as -> Heq. f_equal. by apply IH.
Qed.

Lemma foldInsert_fmap {A B C} (f : C → A) (key : A → string) (val : A → B)
    (init : gmap string B) (l : list C) :
  foldInsert key val init (f <$> l) = foldInsert (key ∘ f) (val ∘ f) init l.
Proof. revert init. induction l as [|c l IH]; intros init; [done|]. apply IH. Qed.

(** ** Map helpers *)

Module MapHelpersSpec.
Import MapHelpers.



(** On a miss the factory runs once, on the component's pinia, and its
    store is cached under the factory's id. *)
Lemma getCachedStore_miss (d : StoreDefinition) (vm : Vm) (h : Heap) :
  default ∅ (_pStores vm) !! def_id d = None →
  getCachedStore d (vm, h) =
    (let '(r, h') := useStore d (_pinia vm) h in
     (r, (mkVm (Some (<[def_id d := r]> (default ∅ (_pStores vm)))) (_pinia vm), h'))).
Proof.
  intros Hm. destruct vm as [[c|] pinia]; simpl in *; by rewrite Hm.
Qed.



(** With factories as arguments [mapStores] is the plain fold. *)
Lemma mapStores_factories (dev : bool) (ds : list StoreDefinition) (g : Globals) :
  mapStores dev (ArgStore <$> ds) g =
    (foldInsert (λ d, def_id d ++ mapStoreSuffix g)
                (λ d, storeAccessor (ArgStore d)) ∅ ds, g).
Proof.
  unfold mapStores.
  replace (match ArgStore <$> ds with
           | ArgArray ds0 :: _ =>
               if dev
               then (ArgStore <$> ds0,
                     mkGlobals (mapStoreSuffix g) (console g ++ [mapStoresWarning]))
               else (ArgStore <$> ds, g)
           | _ => (ArgStore <$> ds, g)
           end) with (ArgStore <$> ds, g) by (by destruct ds).
  f_equal. apply (foldInsert_fmap ArgStore (accessorKey (mapStoreSuffix g)) storeAccessor).
Qed.


(** The key [k] of the selector stands for the state key [sk]. *)
Definition selects (keysOrMapper : KeysOrMapper) (k sk : string) : Prop :=
  match keysOrMapper with
  | Keys keys => k ∈ keys ∧ sk = k
  | Mapper m => m !! k = Some sk
  end.



(** *** On the sample data *)

(** [mapStores(useCounter, useCart)] exposes [counterStore] and
    [CartStore]; after [setMapStoreSuffix('')], [counter] and [Cart]. *)
Example mapStores_sample_keys :
  let args := [ArgStore Samples.useCounter; ArgStore Samples.useCart] in
  dom (mapStores true args initialGlobals).1 = {["counterStore"; "CartStore"]} ∧
  dom (mapStores true args (setMapStoreSuffix "" initialGlobals).2).1
    = {["counter"; "Cart"]}.
Proof. split; by vm_compute. Qed.

(** In a development build an array of factories is unwrapped, with a
    warning; in production its only key is [undefinedStore]. *)
Example mapStores_sample_array :
  let args := [ArgArray [Samples.useCounter; Samples.useCart]] in
  dom (mapStores true args initialGlobals).1 = {["counterStore"; "CartStore"]} ∧
  length (console (mapStores true args initialGlobals).2) = 1 ∧
  dom (mapStores false args initialGlobals).1 = {["undefinedStore"]}.
Proof. repeat split; by vm_compute. Qed.



(** *** Further properties of the map helpers *)

Lemma foldInsert_lookup_last {A B} (key : A → string) (val : A → B)
    (init : gmap string B) (l1 l2 : list A) (a : A) :
  key a ∉ key <$> l2 →
  foldInsert key val init (l1 ++ a :: l2) !! key a = Some (val a).
Proof.
  intros Hnot. unfold foldInsert. rewrite foldl_app. simpl.
  fold (foldInsert key val (<[key a := val a]> (foldl (λ reduced a0, <[key a0 := val a0]> reduced) init l1)) l2).
  rewrite foldInsert_lookup_notin by done. apply lookup_insert_eq.
Qed.

(** The cache of a component, empty while [_pStores] is absent. *)
Definition cacheOf (vm : Vm) : gmap string Ref := default ∅ (_pStores vm).




(** X2. The guard of [mapStores] against a single array argument: in a
    development build [mapStores([a, b])] gives the accessors of
    [mapStores(a, b)] (arguments after the array are dropped) and logs one
    warning; in a production build the array is taken for a factory: the
    only key is ["undefined"] followed by the suffix, nothing is logged, and
    on a component that has no store cached under ["undefined"] the accessor
    throws. *)
Theorem mapStores_array_guard (ds : list StoreDefinition) (rest : list StoreArg)
    (g : Globals) :
  (mapStores true (ArgArray ds :: rest) g).1 = (mapStores true (ArgStore <$> ds) g).1 ∧
  console (mapStores true (ArgArray ds :: rest) g).2 = (console g ++ [mapStoresWarning])%list ∧
  mapStoreSuffix (mapStores true (ArgArray ds :: rest) g).2 = mapStoreSuffix g ∧
  (mapStores false [ArgArray ds] g).2 = g ∧
  dom (mapStores false [ArgArray ds] g).1 = {["undefined" ++ mapStoreSuffix g]} ∧
  (∀ vm h, cacheOf vm !! "undefined" = None →
     ∃ acc, (mapStores false [ArgArray ds] g).1 !! ("undefined" ++ mapStoreSuffix g)
              = Some acc ∧
            acc (vm, h) = None).
Proof.
  split; [|split; [|split; [|split; [|split]]]].
  - rewrite mapStores_factories. unfold mapStores. simpl.
    apply (foldInsert_fmap ArgStore (accessorKey (mapStoreSuffix g)) storeAccessor).
  - done.
  - done.
  - done.
  - unfold mapStores. simpl. rewrite dom_insert_L. set_solver.
  - intros vm h Hc. unfold mapStores. simpl. eexists.
    split; [apply lookup_insert_eq|].
    unfold cacheOf in Hc. destruct vm as [[c|] pinia]; simpl in *; by rewrite Hc.
Qed.

(** X3. When several factories given to [mapStores] have the same id, the
    accessor under their common key is the one of the last of them. *)
Theorem mapStores_last_wins (dev : bool) (g : Globals)
    (before after : list StoreDefinition) (d : StoreDefinition) :
  (∀ d', d' ∈ after → def_id d' ≠ def_id d) →
  ∃ acc,
    (mapStores dev (ArgStore <$> (before ++ d :: after)%list) g).1
      !! (def_id d ++ mapStoreSuffix g) = Some acc ∧
    ∀ st, acc st = Some (getCachedStore d st).
Proof.
  intros Hafter. rewrite mapStores_factories. simpl.
  exists (storeAccessor (ArgStore d)). split; [|done].
  apply (foldInsert_lookup_last (λ d, def_id d ++ mapStoreSuffix g)
           (λ d, storeAccessor (ArgStore d))).
  intros (d' & Heq & Hin)%list_elem_of_fmap.
  apply string_app_inj_r in Heq. by apply (Hafter d').
Qed.

Lemma mapStores_last_wins_witness :
  let other := mkDef "counter" (λ _ h, (5, h)) in
  ∃ acc,
    (mapStores true (ArgStore <$> [other; Samples.useCart; Samples.useCounter])
       initialGlobals).1 !! "counterStore" = Some acc ∧
    acc (Samples.component, Samples.stores)
      = Some (getCachedStore Samples.useCounter (Samples.component, Samples.stores)).
Proof.
  cbv zeta.
  destruct (mapStores_last_wins true initialGlobals
              [mkDef "counter" (λ _ h, (5, h)); Samples.useCart] []
              Samples.useCounter) as (acc & Hl & Hcall).
  { intros d' Hin. by apply elem_of_nil in Hin. }
  exists acc. split; [exact Hl|apply Hcall].
Defined.

Lemma foldKeys_lookup {B} (val : string → B) (keys : list string) (k : string) :
  foldl (λ (reduced : gmap string B) key, <[key := val key]> reduced) ∅ keys !! k =
    if decide (k ∈ keys) then Some (val k) else None.
Proof.
  change (foldl _ ∅ keys) with (foldInsert id val ∅ keys).
  destruct (decide (k ∈ keys)) as [Hin|Hout].
  - destruct (foldInsert_lookup_in id val ∅ keys k) as (a & _ & Ha & ->);
      [by rewrite list_fmap_id|].
    unfold id in Ha. by subst a.
  - rewrite foldInsert_lookup_notin; [done|by rewrite list_fmap_id].
Qed.

Lemma objectKeys_elem {A} (m : gmap string A) (k : string) :
  k ∈ objectKeys m ↔ is_Some (m !! k).
Proof.
  unfold objectKeys. rewrite list_elem_of_fmap. split.
  - intros ([k' v] & -> & Hkv). apply elem_of_map_to_list in Hkv. by exists v.
  - intros [v Hv]. exists (k, v). split; [done|]. by apply elem_of_map_to_list.
Qed.

(** The store a component reads and writes through a factory, and the
    state in which it is cached. *)
Definition storeOf (d : StoreDefinition) (st : St) : Ref := (getCachedStore d st).1.
Definition cachedIn (d : StoreDefinition) (st : St) : St := (getCachedStore d st).2.


Lemma getCachedStore_pair (d : StoreDefinition) (st : St) :
  getCachedStore d st = (storeOf d st, cachedIn d st).
Proof. unfold storeOf, cachedIn. by destruct (getCachedStore d st). Qed.













(** X8. A method of [mapActions] calls the function the component's cached
    store has under the selected name, with the arguments it was given, in
    the state in which the store is cached, and returns its result; when
    the store has no function under that name the call throws.  In the
    object form the name is the one the object gives for the output key. *)
Theorem mapActions_forwards (methods : Ref → gmap string Method)
    (d : StoreDefinition) (keysOrMapper : KeysOrMapper) (k name : string)
    (args : list Value) (st : St) :
  selects keysOrMapper k name →
  ∃ acc,
    mapActions methods d keysOrMapper !! k = Some acc ∧
    acc args st =
      (λ action : Method, action args (cachedIn d st))
        <$> methods (storeOf d st) !! name.
Proof.
  intros Hsel. exists (actionCaller methods d name). split.
  - destruct keysOrMapper as [keys|m]; simpl in *.
    + destruct Hsel as [Hk ->]. by rewrite foldKeys_lookup, decide_True.
    + rewrite foldKeys_lookup, decide_True, Hsel; [done|].
      rewrite objectKeys_elem, Hsel. eauto.
  - unfold actionCaller. rewrite getCachedStore_pair.
    by destruct (methods (storeOf d st) !! name).
Qed.

Lemma mapActions_forwards_witness :
  let st := (Samples.component, Samples.stores) in
  ∃ moar gone,
    mapActions Samples.counterMethods Samples.useCounter (Mapper Samples.renamed)
      !! "moar" = Some moar ∧
    mapActions Samples.counterMethods Samples.useCounter (Mapper Samples.renamed)
      !! "gone" = Some gone ∧
    fst <$> moar [VNum 3] st = Some (VNum 3) ∧
    gone [] st = None.
Proof.
  cbv zeta.
  destruct (mapActions_forwards Samples.counterMethods Samples.useCounter
              (Mapper Samples.renamed) "moar" "increment" [VNum 3]
              (Samples.component, Samples.stores))
    as (moar & Hl & Hrun); [reflexivity|].
  destruct (mapActions_forwards Samples.counterMethods Samples.useCounter
              (Mapper Samples.renamed) "gone" "reset" []
              (Samples.component, Samples.stores))
    as (gone & Hl' & Hrun'); [reflexivity|].
  exists moar, gone. split; [exact Hl|]. split; [exact Hl'|].
  rewrite Hrun, Hrun'. split; reflexivity.
Defined.

End MapHelpersSpec.

(** ** Devtools bridge *)

Module DevtoolsSpec.
Import Devtools.

(** *** Strings *)

Lemma append_nil_l (t : string) : "" ++ t = t.
Proof. reflexivity. Qed.

Lemma append_cons (a : Ascii.ascii) (s t : string) :
  String a s ++ t = String a (s ++ t).
Proof. reflexivity. Qed.

Lemma append_assoc (s t u : string) : (s ++ t) ++ u = s ++ (t ++ u).
Proof.
  induction s as [|a s IH]; [done|]. by rewrite !append_cons, IH.
Qed.

Lemma startsWith_spec (haystack needle : string) :
  startsWith haystack needle = true ↔ ∃ post, haystack = needle ++ post.
Proof.
  revert haystack. induction needle as [|a needle IH]; intros haystack.
  - destruct haystack; simpl; split; eauto.
  - destruct haystack as [|b haystack]; simpl.
    + split; [done|]. intros [post Hp]. by rewrite append_cons in Hp.
    + destruct (decide (a = b)) as [->|Hne].
      * rewrite IH. split; intros [post Hp]; exists post.
        -- by rewrite append_cons, Hp.
        -- rewrite append_cons in Hp. by injection Hp.
      * split; [done|]. intros [post Hp]. rewrite append_cons in Hp.
        injection Hp as ? ?. congruence.
Qed.

Lemma includes_unfold (haystack needle : string) :
  includes haystack needle =
    startsWith haystack needle ||
    match haystack with
    | "" => false
    | String _ haystack' => includes haystack' needle
    end.
Proof. by destruct haystack. Qed.

(** [includes] is the substring test. *)
Lemma includes_spec (haystack needle : string) :
  includes haystack needle = true ↔
  ∃ pre post, haystack = pre ++ needle ++ post.
Proof.
  split.
  - induction haystack as [|a haystack IH]; rewrite includes_unfold;
      intros [Hs|Hr]%orb_true_iff.
    + apply startsWith_spec in Hs as [post ->]. by exists "", post.
    + done.
    + apply startsWith_spec in Hs as [post ->]. by exists "", post.
    + destruct (IH Hr) as (pre & post & ->).
      exists (String a pre), post. by rewrite append_cons.
  - intros (pre & post & ->).
    induction pre as [|a pre IH]; rewrite includes_unfold.
    + rewrite append_nil_l. apply orb_true_iff. left.
      apply startsWith_spec. eauto.
    + rewrite append_cons. apply orb_true_iff. by right.
Qed.

Lemma includes_append_r (s t needle : string) :
  includes t needle = true → includes (s ++ t) needle = true.
Proof.
  rewrite !includes_spec. intros (pre & post & ->).
  exists (s ++ pre), post. by rewrite (append_assoc s pre).
Qed.

(** *** The registry *)

Lemma Map_get_Some_elem {V} (m : list (string * V)) (key : string) (v : V) :
  Map_get m key = Some v → (key, v) ∈ m.
Proof.
  induction m as [|[k x] m IH]; simpl; [done|].
  destruct (decide (k = key)) as [->|]; [intros [= ->]; left|right; auto].
Qed.

Lemma Map_get_None {V} (m : list (string * V)) (key : string) :
  Map_get m key = None ↔ key ∉ m.*1.
Proof.
  induction m as [|[k x] m IH]; simpl; [set_solver|].
  destruct (decide (k = key)) as [->|]; [set_solver|].
  rewrite IH. set_solver.
Qed.

Lemma Map_has_true {V} (m : list (string * V)) (key : string) :
  Map_has m key = true ↔ key ∈ m.*1.
Proof.
  unfold Map_has. rewrite bool_decide_eq_true, <-not_eq_None_Some, Map_get_None.
  destruct (decide (key ∈ m.*1)); naive_solver.
Qed.

Lemma Map_set_fresh {V} (m : list (string * V)) (key : string) (v : V) :
  key ∉ m.*1 → Map_set m key v = (m ++ [(key, v)])%list.
Proof.
  induction m as [|[k x] m IH]; simpl; [done|]. intros Hk.
  destruct (decide (k = key)) as [->|]; [set_solver|].
  f_equal. apply IH. set_solver.
Qed.

(** The number of entries of the registry under an id. *)
Definition entriesFor (id : string) (m : list (string * Ref)) : nat :=
  length (filter (λ kv, kv.1 = id) m).

Lemma entriesFor_notin (id : string) (m : list (string * Ref)) :
  id ∉ m.*1 → entriesFor id m = 0.
Proof.
  unfold entriesFor. induction m as [|[k x] m IH]; [done|].
  intros Hk. rewrite filter_cons. simpl.
  destruct (decide (k = id)) as [->|]; [set_solver|]. apply IH. set_solver.
Qed.

Lemma entriesFor_NoDup (id : string) (m : list (string * Ref)) :
  NoDup m.*1 → id ∈ m.*1 → entriesFor id m = 1.
Proof.
  unfold entriesFor. induction m as [|[k x] m IH]; [set_solver|].
  rewrite fmap_cons, filter_cons. simpl. intros [Hk Hnd]%NoDup_cons Hin.
  destruct (decide (k = id)) as [->|Hne]; simpl.
  - f_equal. by apply entriesFor_notin.
  - apply IH; [done|]. set_solver.
Qed.

(** *** Registration *)

(** Unfolds the state-passing combinators. *)
Ltac run :=
  unfold mbind, mret, State_bind, State_ret, bind, ret, gets, modify in *;
  simpl in *.

(** A sequence of registrations. *)
Definition addDevtoolsAll `{Collaborators} (calls : list (App * Ref))
  : State World unit :=
  forEach (λ call, addDevtools call.1 call.2) calls.

(** The number of callbacks a store was given. *)
Definition timesSubscribed (store : Ref) (subs : list Ref) : nat :=
  length (filter (λ r, r = store) subs).

Section Registration.
Context `{Collaborators}.

Lemma forEach_app {A} (f : A → State World unit) (l1 l2 : list A) (w : World) :
  forEach f (l1 ++ l2) w = forEach f l2 (forEach f l1 w).2.
Proof.
  revert w. induction l1 as [|a l1 IH]; intros w; [done|].
  simpl. run. destruct (f a w) as [[] w1]. apply IH.
Qed.

(** The setup function with [hasSubscribed] set touches neither the
    registry, nor the stores, nor any subscription. *)
Lemma setup_subscribed (app : App) (store : Ref) (w : World) :
  let w' := (setup app store true w).2 in
  registeredStores w' = registeredStores w ∧ heap w' = heap w ∧
  actionSubscribers w' = actionSubscribers w ∧
  mutationSubscribers w' = mutationSubscribers w ∧
  runningActionId w' = runningActionId w ∧
  isTimelineActive w' = isTimelineActive w.
Proof. unfold setup. run. by destruct (isAlreadyInstalled w). Qed.

Lemma addDevtools_unfold (app : App) (store : Ref) (w : World) :
  addDevtools app store w =
    setup app store true
      (if Map_has (registeredStores w) (_id (heap w !!! store)) then w
       else register (_id (heap w !!! store)) store w).
Proof.
  unfold addDevtools, setupDevtoolsPlugin.
  by destruct (Map_has (registeredStores w) (_id (heap w !!! store))).
Qed.

Lemma addDevtools_facts (app : App) (store : Ref) (w : World) :
  let w' := (addDevtools app store w).2 in
  heap w' = heap w ∧
  actionSubscribers w' = actionSubscribers w ∧
  mutationSubscribers w' = mutationSubscribers w ∧
  (NoDup (registeredStores w).*1 → NoDup (registeredStores w').*1) ∧
  (∀ id, id ∈ (registeredStores w).*1 → id ∈ (registeredStores w').*1) ∧
  _id (heap w !!! store) ∈ (registeredStores w').*1.
Proof.
  simpl. rewrite addDevtools_unfold.
  destruct (setup_subscribed app store
              (if Map_has (registeredStores w) (_id (heap w !!! store)) then w
               else register (_id (heap w !!! store)) store w))
    as (-> & -> & -> & -> & _).
  destruct (Map_has (registeredStores w) (_id (heap w !!! store))) eqn:Hhas.
  - apply Map_has_true in Hhas. done.
  - assert (_id (heap w !!! store) ∉ (registeredStores w).*1) as Hnew.
    { rewrite <-Map_has_true. by rewrite Hhas. }
    simpl. rewrite (Map_set_fresh _ _ _ Hnew), fmap_app. simpl.
    repeat split; try done.
    + intros Hnd. apply NoDup_app. split; [done|].
      split; [set_solver|apply NoDup_singleton].
    + set_solver.
    + set_solver.
Qed.

Lemma addDevtoolsAll_facts (calls : list (App * Ref)) (w : World) :
  let w' := (addDevtoolsAll calls w).2 in
  heap w' = heap w ∧
  actionSubscribers w' = actionSubscribers w ∧
  mutationSubscribers w' = mutationSubscribers w ∧
  (NoDup (registeredStores w).*1 → NoDup (registeredStores w').*1) ∧
  (∀ id, id ∈ (registeredStores w).*1 → id ∈ (registeredStores w').*1).
Proof.
  revert w. induction calls as [|[app store] calls IH]; intros w; [done|].
  unfold addDevtoolsAll in *. simpl. run.
  destruct (addDevtools_facts app store w) as (Hh & Ha & Hm & Hnd & Hin & _).
  destruct (addDevtools app store w) as [[] w1]. simpl in *.
  destruct (IH w1) as (Hh' & Ha' & Hm' & Hnd' & Hin').
  rewrite Hh', Ha', Hm', Hh, Ha, Hm. auto 10.
Qed.

(** A registration under an id that is already registered changes neither
    the registry nor the subscriptions. *)
Lemma addDevtools_again (app : App) (store : Ref) (w : World) :
  Map_has (registeredStores w) (_id (heap w !!! store)) = true →
  let w' := (addDevtools app store w).2 in
  registeredStores w' = registeredStores w ∧
  actionSubscribers w' = actionSubscribers w ∧
  mutationSubscribers w' = mutationSubscribers w.
Proof.
  intros Hhas. simpl. rewrite addDevtools_unfold, Hhas.
  destruct (setup_subscribed app store w) as (-> & _ & -> & -> & _). done.
Qed.

(** C2. After any sequence of registrations that contains one of a given
    store, the registry has exactly one entry under that store's id, and
    no store has been given more than one [$onAction] callback or more
    than one [$subscribe] callback; a registration under an id that is
    already registered adds neither an entry nor a subscription. *)
Theorem addDevtools_registers_once (h : Heap) (clock : Z) (toast : bool)
    (before after : list (App * Ref)) (app : App) (store : Ref) :
  let w := (addDevtoolsAll (before ++ (app, store) :: after)
              (initialWorld h clock toast)).2 in
  entriesFor (_id (h !!! store)) (registeredStores w) = 1 ∧
  (∀ r, (timesSubscribed r (actionSubscribers w) ≤ 1)%nat ∧
        (timesSubscribed r (mutationSubscribers w) ≤ 1)%nat) ∧
  (∀ app' store',
     _id (h !!! store') = _id (h !!! store) →
     let w' := (addDevtools app' store' w).2 in
     registeredStores w' = registeredStores w ∧
     actionSubscribers w' = actionSubscribers w ∧
     mutationSubscribers w' = mutationSubscribers w).
Proof.
  intros w. unfold w, addDevtoolsAll. rewrite forEach_app. simpl. run.
  fold (addDevtoolsAll before (initialWorld h clock toast)).
  destruct (addDevtoolsAll_facts before (initialWorld h clock toast))
    as (Hh0 & Ha0 & Hm0 & Hnd0 & _).
  destruct (addDevtoolsAll before (initialWorld h clock toast)) as [[] w0].
  simpl in *.
  destruct (addDevtools_facts app store w0) as (Hh1 & Ha1 & Hm1 & Hnd1 & _ & Hin1).
  destruct (addDevtools app store w0) as [[] w1]. simpl in *.
  fold (addDevtoolsAll after w1).
  destruct (addDevtoolsAll_facts after w1) as (Hh2 & Ha2 & Hm2 & Hnd2 & Hin2).
  destruct (addDevtoolsAll after w1) as [[] w2]. simpl in *.
  rewrite Hh0 in Hin1.
  assert (heap w2 = h) as Hh by congruence.
  split; [|split].
  - apply entriesFor_NoDup; [|by apply Hin2].
    apply Hnd2, Hnd1, Hnd0. constructor.
  - intros r. rewrite Ha2, Ha1, Ha0, Hm2, Hm1, Hm0.
    unfold timesSubscribed. simpl. lia.
  - intros app' store' Hid. apply addDevtools_again.
    apply Map_has_true. rewrite Hh, Hid. by apply Hin2.
Qed.

End Registration.

(** *** The timeline *)

(** The timeline events among the effects, oldest first. *)
Definition timelineEvents (es : list Effect) : list TimelineEvent :=
  omap (λ e, match e with AddTimelineEvent _ ev => Some ev | _ => None end) es.

Definition isStart (ev : TimelineEvent) : bool :=
  bool_decide (subtitle ev = Some "start").

(** Invocations of actions of one store, one after the other, each given
    by its name, its arguments and how its body ends (a body that does
    nothing else). *)
Definition invokeAll `{Collaborators} (store : Ref)
    (invocations : list (string * list Value * Outcome)) : State World unit :=
  forEach (λ i, invokeAction store i.1.1 i.1.2 (mret i.2);; mret tt) invocations.

Lemma timesSubscribed_one (store : Ref) (subs : list Ref) :
  timesSubscribed store subs = 1 → filter (λ r, r = store) subs = [store].
Proof.
  unfold timesSubscribed. intros Hlen.
  destruct (filter (λ r, r = store) subs) as [|r [|r' l]] eqn:Hf; try done.
  assert (r ∈ filter (λ r, r = store) subs) as Hr by (rewrite Hf; left).
  apply list_elem_of_filter in Hr as [-> _]. done.
Qed.

Section Timeline.
Context `{Collaborators}.

Lemma timelineEvents_app (es1 es2 : list Effect) :
  timelineEvents (es1 ++ es2) = (timelineEvents es1 ++ timelineEvents es2)%list.
Proof. apply omap_app. Qed.

(** The setup function with [hasSubscribed] set adds nothing to the
    timeline. *)
Lemma setup_subscribed_timeline (app : App) (store : Ref) (w : World) :
  timelineEvents (effects (setup app store true w).2) = timelineEvents (effects w).
Proof.
  unfold setup. run.
  destruct (isAlreadyInstalled w); simpl;
    rewrite <-!(assoc_L (++)), timelineEvents_app; simpl; apply app_nil_r.
Qed.

Lemma addDevtools_timeline (app : App) (store : Ref) (w : World) :
  timelineEvents (effects (addDevtools app store w).2) = timelineEvents (effects w).
Proof.
  rewrite addDevtools_unfold, setup_subscribed_timeline.
  by destruct (Map_has (registeredStores w) (_id (heap w !!! store))).
Qed.

Lemma addDevtoolsAll_timeline (calls : list (App * Ref)) (w : World) :
  timelineEvents (effects (addDevtoolsAll calls w).2) = timelineEvents (effects w).
Proof.
  revert w. induction calls as [|[app store] calls IH]; intros w; [done|].
  unfold addDevtoolsAll in *. simpl. run.
  pose proof (addDevtools_timeline app store w) as Hw.
  destruct (addDevtools app store w) as [[] w1]. simpl in *.
  by rewrite IH.
Qed.

(** Without an [$onAction] callback an invocation leaves no trace. *)
Lemma invokeAction_unsubscribed (store : Ref) (name : string)
    (args : list Value) (out : Outcome) (w : World) :
  actionSubscribers w = [] →
  invokeAction store name args (mret out) w = (out, w).
Proof. intros Hs. unfold invokeAction. run. rewrite Hs. by destruct out. Qed.

Lemma invokeAll_unsubscribed (store : Ref)
    (invocations : list (string * list Value * Outcome)) (w : World) :
  actionSubscribers w = [] → invokeAll store invocations w = (tt, w).
Proof.
  intros Hs. unfold invokeAll.
  induction invocations as [|[[name args] out] invocations IH]; [done|].
  simpl. unfold mbind, State_bind, bind at 1 2.
  rewrite (invokeAction_unsubscribed _ _ _ _ _ Hs). simpl. apply IH.
Qed.

(** The callback itself pairs the events: on a store that was given the
    [$onAction] callback once, an invocation adds a start event and one
    end event of the same fresh group id, and advances the counter. *)
Lemma invokeAction_subscribed (store : Ref) (name : string)
    (args : list Value) (out : Outcome) (w : World) :
  timesSubscribed store (actionSubscribers w) = 1 →
  let w' := (invokeAction store name args (mret out) w).2 in
  let gid := runningActionId w in
  runningActionId w' = (gid + 1)%Z ∧
  effects w' =
    (effects w ++
     [AddTimelineEvent MUTATIONS_LAYER_ID (startEvent name args gid (now w));
      AddTimelineEvent MUTATIONS_LAYER_ID
        match out with
        | Returned result => successEvent name args gid (now w) result
        | Threw err => errorEvent name args gid (now w) err
        end])%list.
Proof.
  intros Hs%timesSubscribed_one. unfold invokeAction. run. rewrite Hs. simpl.
  destruct out; simpl; by rewrite <-(assoc_L (++)).
Qed.

(** C1 on the code: whatever stores are registered and however many
    actions of a store are then invoked, the timeline stays empty: no
    start event is emitted, since [addDevtools] never reaches
    [store.$onAction]. *)
Theorem addDevtools_actions_untracked (h : Heap) (clock : Z) (toast : bool)
    (calls : list (App * Ref)) (store : Ref)
    (invocations : list (string * list Value * Outcome)) :
  let w := (addDevtoolsAll calls (initialWorld h clock toast)).2 in
  actionSubscribers w = [] ∧
  timelineEvents (effects (invokeAll store invocations w).2) = [].
Proof.
  simpl.
  destruct (addDevtoolsAll_facts calls (initialWorld h clock toast))
    as (_ & Ha & _).
  simpl in Ha. split; [done|].
  rewrite (invokeAll_unsubscribed _ _ _ Ha). simpl.
  by rewrite addDevtoolsAll_timeline.
Qed.

End Timeline.

(** *** Mutations and the active action *)

Section Mutations.
Context `{Collaborators}.

(** The event the [$subscribe] callback builds for a mutation. *)
Definition mutationEvent (mutation : Mutation) (gid : option Z) (t : Z)
  : TimelineEvent :=
  {| time := t;
     title := formatMutationType (m_type mutation);
     subtitle :=
       match m_type mutation with
       | patchFunction => Some "⤵️"
       | patchObject => Some "🧩"
       | direct =>
           match m_events mutation with
           | OneEvent e => Some (de_type e)
           | _ => None
           end
       end;
     data := MutationData (formatEventData (m_events mutation))
               match m_events mutation with
               | NoEvents => None
               | evs => Some evs
               end;
     groupId := gid;
     logType := None |}.

Lemma subscribeCallback_active (mutation : Mutation) (w : World) :
  isTimelineActive w = true →
  subscribeCallback mutation w =
    (tt, emit (AddTimelineEvent MUTATIONS_LAYER_ID
                 (mutationEvent mutation (activeAction w) (now w)))
           (setActiveAction None
              (emit (SendInspectorState INSPECTOR_ID)
                 (emit NotifyComponentUpdate w)))).
Proof. intros Ha. unfold subscribeCallback. by rewrite Ha. Qed.

Lemma subscribeCallback_paused (mutation : Mutation) (w : World) :
  isTimelineActive w = false → subscribeCallback mutation w = (tt, w).
Proof. intros Ha. unfold subscribeCallback. by rewrite Ha. Qed.

(** While the timeline is paused a write notifies in vain. *)
Lemma notifySubscribers_paused (store : Ref) (mutation : Mutation) (w : World) :
  isTimelineActive w = false → notifySubscribers store mutation w = (tt, w).
Proof.
  intros Ha. unfold notifySubscribers.
  induction (filter (λ r, r = store) (mutationSubscribers w)) as [|r l IH];
    [done|].
  simpl. unfold mbind, State_bind, bind at 1.
  by rewrite subscribeCallback_paused.
Qed.

(** C6. While the timeline is active, the event of a mutation carries as
    group id the active-action slot as it was when the callback ran, and
    the slot is empty afterwards, so that the event of a second mutation
    carries no group id; a property read or write through the tracking
    proxy stores the proxy's action id in the slot first (a read leaves
    it there; a write that reaches a subscribed store hands it to that
    mutation's event, which empties the slot again). *)
Theorem mutation_group_id (w : World) (m1 m2 : Mutation) (_actionId : Z)
    (store : Ref) (key : string) (value : Value) :
  isTimelineActive w = true →
  let w1 := (subscribeCallback m1 w).2 in
  let w2 := (subscribeCallback m2 w1).2 in
  (∃ ev, effects w1 =
           (effects w ++ [NotifyComponentUpdate; SendInspectorState INSPECTOR_ID;
                          AddTimelineEvent MUTATIONS_LAYER_ID ev])%list ∧
         groupId ev = activeAction w) ∧
  activeAction w1 = None ∧
  (∃ ev, effects w2 =
           (effects w1 ++ [NotifyComponentUpdate; SendInspectorState INSPECTOR_ID;
                           AddTimelineEvent MUTATIONS_LAYER_ID ev])%list ∧
         groupId ev = None) ∧
  this_get (trackedStore _actionId store) key w =
    (getProp (heap w !!! store) key, setActiveAction (Some _actionId) w) ∧
  this_set (trackedStore _actionId store) key value w =
    Reflect_set store key value (setActiveAction (Some _actionId) w) ∧
  (timesSubscribed store (mutationSubscribers w) = 1 →
   let w3 := (this_set (trackedStore _actionId store) key value w).2 in
   (∃ ev, effects w3 =
            (effects w ++ [NotifyComponentUpdate; SendInspectorState INSPECTOR_ID;
                           AddTimelineEvent MUTATIONS_LAYER_ID ev])%list ∧
          groupId ev = Some _actionId) ∧
   activeAction w3 = None).
Proof.
  intros Ha. simpl.
  rewrite (subscribeCallback_active m1 w Ha). simpl.
  rewrite (subscribeCallback_active m2) by done. simpl.
  split; [|split; [|split; [|split; [|split]]]].
  - eexists. split; [by rewrite <-!(assoc_L (++))|done].
  - done.
  - eexists. split; [by rewrite <-!(assoc_L (++))|done].
  - done.
  - done.
  - intros Hs%timesSubscribed_one.
    unfold Reflect_set, notifySubscribers. run. rewrite Hs. simpl.
    run. rewrite subscribeCallback_active by done. simpl.
    split; [|done]. eexists. split; [by rewrite <-!(assoc_L (++))|done].
Qed.

End Mutations.

(** *** Inspector handlers *)

(** An effect that reports to the user with the given severity. *)
Definition reportedAs (type : ToastType) (e : Effect) : bool :=
  match e, type with
  | Toast _ (Some error), error => true
  | Toast _ (Some warning), warning => true
  | Toast _ (Some normal), normal => true
  | ConsoleError _, error => true
  | ConsoleWarn _, warning => true
  | _, _ => false
  end.

(** The effect of [toastMessage]: the toast of the host, or the console. *)
Definition report (w : World) (message : string) (type : option ToastType)
  : Effect :=
  if toastHost w then Toast ("🍍 " ++ message) type
  else match type with
       | Some error => ConsoleError ("🍍 " ++ message)
       | Some warning => ConsoleWarn ("🍍 " ++ message)
       | _ => ConsoleLog ("🍍 " ++ message)
       end.

Lemma toastMessage_report (message : string) (type : option ToastType) (w : World) :
  toastMessage message type w = (tt, emit (report w message type) w).
Proof.
  unfold toastMessage, report.
  destruct (toastHost w); [done|]. by destruct type as [[]|].
Qed.

Section Inspector.
Context `{Collaborators}.

(** [id] contains [needle] as a substring, letter case ignored. *)
Definition containsIgnoringCase (needle id : string) : Prop :=
  ∃ pre post, toLowerCase id = pre ++ toLowerCase needle ++ post.

#[local] Instance containsIgnoringCase_dec (needle id : string) :
  Decision (containsIgnoringCase needle id).
Proof.
  refine (cast_if (decide (includes (toLowerCase id) (toLowerCase needle) = true)));
    unfold containsIgnoringCase; by rewrite <-includes_spec.
Defined.

(** C8. A get-inspector-tree request for the pinia inspector of the
    application returns, under a non-empty filter, the nodes of exactly
    the registered stores whose id contains the filter as a substring
    when letter case is ignored, in registration order; without a filter
    it returns the nodes of all registered stores; a node carries its
    store's id and label. *)
Theorem getInspectorTree_filter (app : App) (payload : TreePayload) (w : World) :
  tp_app payload = app → tp_inspectorId payload = INSPECTOR_ID →
  let stores := (λ r, heap w !!! r) <$> Map_values (registeredStores w) in
  let result := getInspectorTree app payload w in
  result.2 = w ∧
  (∀ f, tp_filter payload = Some f → f ≠ "" →
     tp_rootNodes result.1 =
       formatStoreForInspectorTree <$>
         filter (λ store, containsIgnoringCase f (_id store)) stores) ∧
  (tp_filter payload = None →
     tp_rootNodes result.1 = formatStoreForInspectorTree <$> stores) ∧
  (∀ store, node_id (formatStoreForInspectorTree store) = _id store ∧
            node_label (formatStoreForInspectorTree store) = storeLabel store).
Proof.
  intros Happ Hid. simpl. unfold getInspectorTree.
  rewrite decide_True by done.
  split; [done|]. split; [|split; [|done]].
  - intros f -> Hf. destruct f as [|a f]; [done|]. simpl.
    f_equal. apply list_filter_iff. intros store.
    unfold containsIgnoringCase. apply includes_spec.
  - by intros ->.
Qed.

(** C5. A get-inspector-state request for the pinia inspector of the
    application: when the node id is not registered, the payload is left
    as it is and one message that contains "not found" is reported with
    error severity; when it is registered, the payload's state is set
    from that store and nothing is reported.  The handler returns in
    both cases. *)
Theorem getInspectorState_lookup (app : App) (payload : StatePayload) (w : World) :
  sp_app payload = app → sp_inspectorId payload = INSPECTOR_ID →
  let result := getInspectorState app payload w in
  match Map_get (registeredStores w) (sp_nodeId payload) with
  | None =>
      sp_nodeId payload ∉ (registeredStores w).*1 ∧
      result.1 = payload ∧
      ∃ e, result.2 = emit e w ∧
           e = report w (notFoundMessage (sp_nodeId payload)) (Some error) ∧
           reportedAs error e = true ∧
           includes (notFoundMessage (sp_nodeId payload)) "not found" = true
  | Some store =>
      (sp_nodeId payload, store) ∈ registeredStores w ∧
      sp_state result.1 =
        Some {| options := formatStoreForInspectorState (heap w !!! store) |} ∧
      result.2 = w
  end.
Proof.
  intros Happ Hid. cbv zeta. unfold getInspectorState.
  rewrite decide_True by done.
  destruct (Map_get (registeredStores w) (sp_nodeId payload)) as [store|] eqn:Hg.
  - split; [by apply Map_get_Some_elem|done].
  - split; [by apply Map_get_None|]. split; [done|].
    rewrite toastMessage_report. eexists. split; [done|]. split; [done|].
    split; [unfold report; by destruct (toastHost w)|].
    apply (includes_append_r ("store " ++ dquote)),
      (includes_append_r (sp_nodeId payload)).
    reflexivity.
Qed.

(** A write through the host's setter while the timeline is paused
    changes the store and nothing else. *)
Lemma hostSet_paused (payload : EditPayload) (store : Ref)
    (path : list string) (w : World) :
  isTimelineActive w = false →
  hostSet payload store path w =
    (tt, setHeap (<[store := ep_set payload (heap w !!! store) path
                               (ep_value payload)]> (heap w)) w).
Proof.
  intros Ha. unfold hostSet. run. by rewrite notifySubscribers_paused.
Qed.

(** The same write with the timeline active puts a mutation on the
    timeline of a subscribed store: the flag is what keeps an edit of
    the inspector off the timeline. *)
Lemma hostSet_active (payload : EditPayload) (store : Ref)
    (path : list string) (w : World) :
  isTimelineActive w = true →
  timesSubscribed store (mutationSubscribers w) = 1 →
  timelineEvents (effects (hostSet payload store path w).2) =
    (timelineEvents (effects w) ++
     [mutationEvent (writeMutation store path (ep_value payload))
        (activeAction w) (now w)])%list.
Proof.
  intros Ha Hs%timesSubscribed_one. unfold hostSet, notifySubscribers. run.
  rewrite Hs. simpl. run. rewrite subscribeCallback_active by done. simpl.
  rewrite <-!(assoc_L (++)), timelineEvents_app. done.
Qed.

(** C3. An edit-inspector-state request for the pinia inspector of the
    application, on a registered store, with a path that starts with
    "state": the first segment becomes "$state", the host's setter is
    applied to the store with that path and the new value, nothing is
    emitted (no mutation reaches the timeline), because the write runs
    with the timeline-active flag off, and the flag is on afterwards. *)
Theorem editInspectorState_state (app : App) (payload : EditPayload)
    (w : World) (store : Ref) (rest : list string) :
  ep_app payload = app → ep_inspectorId payload = INSPECTOR_ID →
  Map_get (registeredStores w) (ep_nodeId payload) = Some store →
  ep_path payload = "state" :: rest →
  let path := "$state" :: rest in
  let result := editInspectorState app payload w in
  ep_path result.1 = path ∧
  result.2 =
    setTimelineActive true
      (hostSet payload store path (setTimelineActive false w)).2 ∧
  isTimelineActive (setTimelineActive false w) = false ∧
  heap result.2 =
    <[store := ep_set payload (heap w !!! store) path (ep_value payload)]>
      (heap w) ∧
  effects result.2 = effects w ∧
  isTimelineActive result.2 = true.
Proof.
  intros Happ Hid Hg Hp. simpl. unfold editInspectorState.
  rewrite decide_True by done. rewrite Hg, Hp.
  rewrite (decide_True (P := head ("state" :: rest) = Some "state")) by done.
  unfold rewriteFirst. cbv zeta.
  rewrite hostSet_paused by done. done.
Qed.

(** C4, as the code has it.  An edit-inspector-state request for the
    pinia inspector of the application, on a registered store, with a
    path that does not start with "state": the payload and the stores
    are left as they are (the host's setter is not applied), and one
    message is reported, with no severity given: a toast without a type
    where the host has toasts, a plain console log elsewhere. *)
Theorem editInspectorState_rejected (app : App) (payload : EditPayload)
    (w : World) (store : Ref) :
  ep_app payload = app → ep_inspectorId payload = INSPECTOR_ID →
  Map_get (registeredStores w) (ep_nodeId payload) = Some store →
  head (ep_path payload) ≠ Some "state" →
  let result := editInspectorState app payload w in
  let message := invalidPathMessage (ep_nodeId payload) (ep_path payload) in
  result.1 = payload ∧
  result.2 = emit (report w message None) w ∧
  report w message None =
    (if toastHost w then Toast ("🍍 " ++ message) None
     else ConsoleLog ("🍍 " ++ message)) ∧
  heap result.2 = heap w.
Proof.
  intros Happ Hid Hg Hp. simpl. unfold editInspectorState.
  rewrite decide_True by done. rewrite Hg.
  rewrite decide_False by done. rewrite toastMessage_report. done.
Qed.

End Inspector.

(** *** The action wrapper *)

Section Plugin.
Context `{Collaborators}.

Lemma originalActions_lookup (ctx : PiniaPluginContext) (name : string) :
  originalActions ctx !! name =
    if decide (name ∈ default [] (ctx_optionsActions ctx))
    then Some (ctx_storeMethods ctx !! name) else None.
Proof.
  unfold originalActions.
  change (foldl _ ∅ ?l) with
    (foldInsert id (λ actionName, ctx_storeMethods ctx !! actionName) ∅ l).
  destruct (decide _) as [Hin|Hout].
  - destruct (foldInsert_lookup_in id
                (λ actionName, ctx_storeMethods ctx !! actionName) ∅
                (default [] (ctx_optionsActions ctx)) name)
      as (a & _ & Ha & ->); [by rewrite list_fmap_id|].
    unfold id in Ha. by subst a.
  - rewrite foldInsert_lookup_notin; [done|by rewrite list_fmap_id].
Qed.

Lemma devtoolsPlugin_lookup (ctx : PiniaPluginContext) (w : World) (name : string) :
  (devtoolsPlugin ctx w).1 !! name =
    if decide (name ∈ default [] (ctx_optionsActions ctx))
    then Some (wrappedAction ctx (originalActions ctx) name) else None.
Proof.
  unfold devtoolsPlugin. run.
  destruct (addDevtools (ctx_app ctx) (ctx_store ctx) w) as [[] w']. simpl.
  change (foldl _ ∅ ?l) with
    (foldInsert id (wrappedAction ctx (originalActions ctx)) ∅ l).
  assert (name ∈ (map_to_list (originalActions ctx)).*1 ↔
          name ∈ default [] (ctx_optionsActions ctx)) as Hkeys.
  { rewrite list_elem_of_fmap. split.
    - intros ([k v] & -> & Hkv). apply elem_of_map_to_list in Hkv. simpl in *.
      rewrite originalActions_lookup in Hkv. by destruct (decide _).
    - intros Hin. exists (name, ctx_storeMethods ctx !! name). split; [done|].
      apply elem_of_map_to_list. rewrite originalActions_lookup.
      by rewrite decide_True. }
  destruct (decide _) as [Hin|Hout].
  - destruct (foldInsert_lookup_in id
                (wrappedAction ctx (originalActions ctx)) ∅
                (map_to_list (originalActions ctx)).*1 name)
      as (a & _ & Ha & ->); [rewrite list_fmap_id; by apply Hkeys|].
    unfold id in Ha. by subst a.
  - rewrite foldInsert_lookup_notin; [done|].
    rewrite list_fmap_id. by rewrite Hkeys.
Qed.

(** C10. For every action name declared in the options, the plugin
    returns a wrapper under that name which, on any arguments, returns
    what the store's original action returns when applied to the
    tracking proxy of the current action id with those very arguments,
    after the pinia has been made the active one; under a name that is
    not declared it returns no wrapper. *)
Theorem devtoolsPlugin_wraps (ctx : PiniaPluginContext) (w : World) :
  let declared := default [] (ctx_optionsActions ctx) in
  let wrappedActions := (devtoolsPlugin ctx w).1 in
  (∀ (name : string) (original : Action),
     name ∈ declared → ctx_storeMethods ctx !! name = Some original →
     ∃ wrapper,
       wrappedActions !! name = Some wrapper ∧
       ∀ arguments w',
         wrapper arguments w' =
           Some (original (trackedStore (runningActionId w') (ctx_store ctx))
                          arguments (setActivePinia (ctx_pinia ctx) w'))) ∧
  (∀ name, name ∉ declared → wrappedActions !! name = None).
Proof.
  cbv zeta. split.
  - intros name original Hin Hm.
    exists (wrappedAction ctx (originalActions ctx) name).
    rewrite devtoolsPlugin_lookup, decide_True by done. split; [done|].
    intros arguments w'. unfold wrappedAction.
    rewrite originalActions_lookup, decide_True by done. by rewrite Hm.
  - intros name Hout. by rewrite devtoolsPlugin_lookup, decide_False.
Qed.

End Plugin.

(** *** On the sample data *)

Section OnSamples.
Import Samples.

(** C1, one invocation: [counter] is registered, its action [add] is
    invoked once and returns, and no start event is on the timeline. *)
Example addDevtools_one_action_untracked :
  let w := (addDevtools 7 0 (initialWorld stores 1000 false)).2 in
  let w' := (invokeAction 0 "add" [VNum 2] (mret (Returned (VNum 2))) w).2 in
  length (filter isStart (timelineEvents (effects w'))) = 0 ∧
  actionSubscribers w = [] ∧ mutationSubscribers w = [].
Proof. by vm_compute. Qed.

(** With the [$onAction] callback in place the same invocation is
    bracketed by a start and an end event of group id 0. *)
Example invokeAction_sample_subscribed :
  let w := onAction 0 (installed false) in
  let w' := (invokeAction 0 "add" [VNum 2] (mret (Returned (VNum 2))) w).2 in
  timelineEvents (effects w') =
    [startEvent "add" [VNum 2] 0 1000;
     successEvent "add" [VNum 2] 0 1000 (VNum 2)] ∧
  runningActionId w' = 1%Z.
Proof. by vm_compute. Qed.

Lemma editInspectorState_state_witness :
  Map_get (registeredStores (installed false)) (ep_nodeId editCount) = Some 0 ∧
  let result := editInspectorState 7 editCount (installed false) in
  ep_path result.1 = ["$state"; "count"] ∧
  effects result.2 = effects (installed false) ∧
  isTimelineActive result.2 = true.
Proof.
  split; [reflexivity|].
  destruct (editInspectorState_state 7 editCount (installed false) 0 ["count"]
              eq_refl eq_refl eq_refl eq_refl)
    as (Hpath & _ & _ & _ & Heff & Hact).
  repeat split; assumption.
Defined.

Lemma editInspectorState_rejected_witness :
  head (ep_path editOptions) ≠ Some "state" ∧
  let result := editInspectorState 7 editOptions (installed false) in
  result.1 = editOptions ∧ heap result.2 = heap (installed false).
Proof.
  assert (head (ep_path editOptions) ≠ Some "state") as Hne by discriminate.
  split; [exact Hne|].
  destruct (editInspectorState_rejected 7 editOptions (installed false) 0
              eq_refl eq_refl eq_refl Hne)
    as (Hpayload & _ & _ & Hheap).
  split; assumption.
Defined.

(** C4 as stated fails: the rejected edit of [editOptions] is reported,
    but not with warning severity, neither through the host's toast nor
    on the console. *)
Lemma editInspectorState_rejected_not_warning :
  head (ep_path editOptions) ≠ Some "state" ∧
  Map_get (registeredStores (installed true)) (ep_nodeId editOptions) = Some 0 ∧
  ¬ (∃ e, e ∈ effects (editInspectorState 7 editOptions (installed true)).2 ∧
          reportedAs warning e = true) ∧
  ¬ (∃ e, e ∈ effects (editInspectorState 7 editOptions (installed false)).2 ∧
          reportedAs warning e = true).
Proof.
  split; [discriminate|]. split; [reflexivity|].
  split; intros (e & He & Hw); vm_compute in He;
    repeat (apply elem_of_cons in He as [->|He]; [discriminate Hw|]);
    by apply elem_of_nil in He.
Qed.

Lemma getInspectorState_lookup_witness :
  (let result := getInspectorState 7 (mkStatePayload 7 "pinia" "nope" None)
                   (installed true) in
   result.1 = mkStatePayload 7 "pinia" "nope" None ∧
   result.2 = emit (Toast ("🍍 store " ++ dquote ++ "nope" ++ dquote ++ " not found")
                      (Some error)) (installed true)) ∧
  (let result := getInspectorState 7 (mkStatePayload 7 "pinia" "counter" None)
                   (installed true) in
   sp_state result.1 = Some {| options := VObj [("count", VNum 0)] |}).
Proof.
  split.
  - pose proof (getInspectorState_lookup 7 (mkStatePayload 7 "pinia" "nope" None)
                  (installed true) eq_refl eq_refl) as Hno.
    cbv zeta in Hno.
    change (Map_get (registeredStores (installed true))
              (sp_nodeId (mkStatePayload 7 "pinia" "nope" None)))
      with (@None Ref) in Hno.
    destruct Hno as (_ & Hpayload & e & Hw & -> & _).
    split; assumption.
  - pose proof (getInspectorState_lookup 7 (mkStatePayload 7 "pinia" "counter" None)
                  (installed true) eq_refl eq_refl) as Hyes.
    cbv zeta in Hyes.
    change (Map_get (registeredStores (installed true))
              (sp_nodeId (mkStatePayload 7 "pinia" "counter" None)))
      with (Some 0) in Hyes.
    destruct Hyes as (_ & Hstate & _). exact Hstate.
Defined.

Lemma getInspectorTree_filter_witness :
  tp_rootNodes (getInspectorTree 7 (mkTreePayload 7 "pinia" (Some "CA") [])
                  (installed false)).1 =
    [mkNode "Cart" "Cart"] ∧
  tp_rootNodes (getInspectorTree 7 (mkTreePayload 7 "pinia" None [])
                  (installed false)).1 =
    [mkNode "counter" "counter"; mkNode "Cart" "Cart"].
Proof.
  split.
  - destruct (getInspectorTree_filter 7 (mkTreePayload 7 "pinia" (Some "CA") [])
                (installed false) eq_refl eq_refl) as (_ & Hf & _ & _).
    rewrite (Hf "CA" eq_refl); [reflexivity|discriminate].
  - destruct (getInspectorTree_filter 7 (mkTreePayload 7 "pinia" None [])
                (installed false) eq_refl eq_refl) as (_ & _ & Hall & _).
    rewrite (Hall eq_refl). reflexivity.
Defined.

Lemma mutation_group_id_witness :
  let w := setActiveAction (Some 4%Z) (subscribe 0 (installed false)) in
  let m := mkMutation NoEvents direct in
  isTimelineActive w = true ∧
  groupId <$> timelineEvents (effects (subscribeCallback m w).2) = [Some 4%Z] ∧
  groupId <$> timelineEvents
                (effects (subscribeCallback m (subscribeCallback m w).2).2)
    = [Some 4%Z; None] ∧
  activeAction (this_get (trackedStore 9 0) "count" w).2 = Some 9%Z.
Proof.
  cbv zeta.
  destruct (mutation_group_id
              (setActiveAction (Some 4%Z) (subscribe 0 (installed false)))
              (mkMutation NoEvents direct) (mkMutation NoEvents direct)
              9 0 "count" (VNum 1) eq_refl)
    as ((ev1 & He1 & Hg1) & _ & (ev2 & He2 & Hg2) & Hget & _).
  split; [reflexivity|]. split; [|split].
  - rewrite He1, timelineEvents_app, fmap_app.
    change (groupId <$> timelineEvents [NotifyComponentUpdate;
              SendInspectorState INSPECTOR_ID;
              AddTimelineEvent MUTATIONS_LAYER_ID ev1]) with [groupId ev1].
    rewrite Hg1. reflexivity.
  - rewrite He2, He1, !timelineEvents_app, !fmap_app.
    change (groupId <$> timelineEvents [NotifyComponentUpdate;
              SendInspectorState INSPECTOR_ID;
              AddTimelineEvent MUTATIONS_LAYER_ID ev1]) with [groupId ev1].
    change (groupId <$> timelineEvents [NotifyComponentUpdate;
              SendInspectorState INSPECTOR_ID;
              AddTimelineEvent MUTATIONS_LAYER_ID ev2]) with [groupId ev2].
    rewrite Hg1, Hg2. reflexivity.
  - rewrite Hget. reflexivity.
Defined.

(** The wrapper of [add], called on a subscribed store: the result is the
    sum, and the mutation it makes is attributed to the action. *)
Lemma devtoolsPlugin_wraps_witness :
  let ctx := mkContext 7 0 {["add" := add]} (Some ["add"]) 3 in
  let w := initialWorld stores 1000 false in
  (devtoolsPlugin ctx w).1 !! "reset" = None ∧
  ∃ wrapper,
    (devtoolsPlugin ctx w).1 !! "add" = Some wrapper ∧
    (λ r, (r.1, groupId <$> timelineEvents (effects r.2)))
      <$> wrapper [VNum 2] (subscribe 0 (installed false))
      = Some (VNum 2, [Some 0%Z]).
Proof.
  cbv zeta. split; [by vm_compute|].
  destruct (devtoolsPlugin_wraps
              (mkContext 7 0 {["add" := add]} (Some ["add"]) 3)
              (initialWorld stores 1000 false)) as [Hw _].
  destruct (Hw "add" add) as (wrapper & Hl & Hcall); [left|reflexivity|].
  exists wrapper. split; [exact Hl|]. rewrite Hcall. by vm_compute.
Defined.

Lemma addDevtools_registers_once_witness :
  let w := (addDevtoolsAll [(7, 0); (7, 1); (8, 0)]
              (initialWorld stores 1000 false)).2 in
  registeredStores w = [("counter", 0); ("Cart", 1)] ∧
  entriesFor "counter" (registeredStores w) = 1 ∧
  registeredStores (addDevtools 8 0 w).2 = registeredStores w.
Proof.
  cbv zeta.
  destruct (addDevtools_registers_once stores 1000 false [] [(7, 1); (8, 0)] 7 0)
    as (Hone & _ & Hagain).
  split; [reflexivity|]. split; [exact Hone|].
  exact (proj1 (Hagain 8 0 eq_refl)).
Defined.

End OnSamples.

(** *** Further properties of the registration *)

(** The host asks for the inspector tree: it calls the handler it was
    given, if any. *)
Definition requestInspectorTree `{Collaborators} (payload : TreePayload)
  : State World TreePayload :=
  λ w,
    match handlersApp w with
    | Some app => getInspectorTree app payload w
    | None => (payload, w)
    end.

Lemma Map_get_app_Some {V} (m : list (string * V)) (key k : string) (v x : V) :
  Map_get m key = Some v → Map_get (m ++ [(k, x)]) key = Some v.
Proof.
  induction m as [|[k' x'] m IH]; simpl; [done|].
  by destruct (decide (k' = key)).
Qed.

Lemma Map_get_app_fresh {V} (m : list (string * V)) (key : string) (v : V) :
  key ∉ m.*1 → Map_get (m ++ [(key, v)]) key = Some v.
Proof.
  induction m as [|[k' x'] m IH]; simpl.
  - intros _. by rewrite decide_True.
  - intros Hk. rewrite decide_False by set_solver. apply IH. set_solver.
Qed.

Section MoreRegistration.
Context `{Collaborators}.

Lemma addDevtools_registry (app : App) (store : Ref) (w : World) :
  let id := _id (heap w !!! store) in
  let w' := (addDevtools app store w).2 in
  heap w' = heap w ∧
  registeredStores w' =
    (if Map_has (registeredStores w) id then registeredStores w
     else registeredStores w ++ [(id, store)])%list ∧
  componentStateTypes w' =
    (if Map_has (registeredStores w) id then componentStateTypes w
     else componentStateTypes w ++ [("🍍 " ++ id)%string])%list.
Proof.
  cbv zeta. rewrite addDevtools_unfold.
  destruct (Map_has (registeredStores w) (_id (heap w !!! store))) eqn:Hhas.
  - unfold setup. run. by destruct (isAlreadyInstalled w).
  - assert (_id (heap w !!! store) ∉ (registeredStores w).*1) as Hnew.
    { rewrite <-Map_has_true. by rewrite Hhas. }
    unfold setup. run.
    destruct (isAlreadyInstalled w); simpl; by rewrite (Map_set_fresh _ _ _ Hnew).
Qed.

Lemma setup_subscribed_effects (app : App) (store : Ref) (w : World) :
  let w' := (setup app store true w).2 in
  isAlreadyInstalled w' = true ∧
  handlersApp w' = (if isAlreadyInstalled w then handlersApp w else Some app) ∧
  effects w' =
    (effects w ++
     if isAlreadyInstalled w
     then [SendInspectorTree INSPECTOR_ID; SendInspectorState INSPECTOR_ID]
     else [AddTimelineLayer MUTATIONS_LAYER_ID "Pinia 🍍" 15064968;
           AddInspector INSPECTOR_ID "Pinia 🍍" "storage" "Search stores"])%list.
Proof.
  cbv zeta. unfold setup. run.
  destruct (isAlreadyInstalled w) eqn:Hi; simpl; rewrite ?Hi;
    by rewrite <-?(assoc_L (++)).
Qed.

Lemma addDevtools_setup_effects (app : App) (store : Ref) (w : World) :
  let w' := (addDevtools app store w).2 in
  isAlreadyInstalled w' = true ∧
  handlersApp w' = (if isAlreadyInstalled w then handlersApp w else Some app) ∧
  effects w' =
    (effects w ++
     if isAlreadyInstalled w
     then [SendInspectorTree INSPECTOR_ID; SendInspectorState INSPECTOR_ID]
     else [AddTimelineLayer MUTATIONS_LAYER_ID "Pinia 🍍" 15064968;
           AddInspector INSPECTOR_ID "Pinia 🍍" "storage" "Search stores"])%list.
Proof.
  cbv zeta. rewrite addDevtools_unfold.
  destruct (Map_has (registeredStores w) (_id (heap w !!! store)));
    [exact (setup_subscribed_effects app store w)|].
  exact (setup_subscribed_effects app store
           (register (_id (heap w !!! store)) store w)).
Qed.

Lemma addDevtoolsAll_cons (app : App) (store : Ref) (calls : list (App * Ref))
    (w : World) :
  (addDevtoolsAll ((app, store) :: calls) w).2 =
    (addDevtoolsAll calls (addDevtools app store w).2).2.
Proof.
  unfold addDevtoolsAll. simpl. run. by destruct (addDevtools app store w) as [[] w1].
Qed.

Lemma addDevtoolsAll_installed (calls : list (App * Ref)) (w : World) :
  isAlreadyInstalled w = true →
  let w' := (addDevtoolsAll calls w).2 in
  isAlreadyInstalled w' = true ∧
  handlersApp w' = handlersApp w ∧
  effects w' =
    (effects w ++
     concat (replicate (length calls)
               [SendInspectorTree INSPECTOR_ID; SendInspectorState INSPECTOR_ID]))%list.
Proof.
  revert w. induction calls as [|[app store] calls IH]; intros w Hi.
  - simpl. by rewrite app_nil_r.
  - cbv zeta. rewrite addDevtoolsAll_cons.
    destruct (addDevtools_setup_effects app store w) as (Hi1 & Hh1 & He1).
    rewrite Hi in Hh1, He1.
    destruct (IH _ Hi1) as (Hi2 & Hh2 & He2).
    rewrite Hi2, Hh2, He2, Hh1, He1. simpl. by rewrite <-(assoc_L (++)).
Qed.

(** X9. The devtools are set up once: over any sequence of registrations
    that starts in the initial state, the first adds the timeline layer and
    the inspector, and every later one, whatever its store and application,
    only asks the host to send the inspector tree and state again; nothing
    else reaches the host or the user. *)
Theorem addDevtools_sets_up_once (h : Heap) (clock : Z) (toast : bool)
    (app : App) (store : Ref) (later : list (App * Ref)) :
  let w := (addDevtoolsAll ((app, store) :: later) (initialWorld h clock toast)).2 in
  isAlreadyInstalled w = true ∧
  effects w =
    ([AddTimelineLayer MUTATIONS_LAYER_ID "Pinia 🍍" 15064968;
      AddInspector INSPECTOR_ID "Pinia 🍍" "storage" "Search stores"] ++
     concat (replicate (length later)
               [SendInspectorTree INSPECTOR_ID; SendInspectorState INSPECTOR_ID]))%list.
Proof.
  cbv zeta. rewrite addDevtoolsAll_cons.
  destruct (addDevtools_setup_effects app store (initialWorld h clock toast))
    as (Hi1 & _ & He1).
  destruct (addDevtoolsAll_installed later _ Hi1) as (Hi2 & _ & He2).
  split; [exact Hi2|]. etrans; [exact He2|]. by rewrite He1.
Qed.

(** X10. The inspector handlers stay those of the application of the first
    registration: after any later registrations, by whatever application, a
    tree request of another application is left unanswered (its payload
    comes back as it was), while one of the first application is answered
    with the registered stores. *)
Theorem inspector_bound_to_first_app (h : Heap) (clock : Z) (toast : bool)
    (app : App) (store : Ref) (later : list (App * Ref)) (payload : TreePayload) :
  let w := (addDevtoolsAll ((app, store) :: later) (initialWorld h clock toast)).2 in
  handlersApp w = Some app ∧
  (tp_app payload ≠ app → requestInspectorTree payload w = (payload, w)) ∧
  (tp_app payload = app → tp_inspectorId payload = INSPECTOR_ID →
   tp_filter payload = None →
   tp_rootNodes (requestInspectorTree payload w).1 =
     (λ r, formatStoreForInspectorTree (h !!! r)) <$> Map_values (registeredStores w)).
Proof.
  cbv zeta.
  destruct (addDevtoolsAll_facts ((app, store) :: later) (initialWorld h clock toast))
    as (Hheap & _).
  simpl in Hheap.
  assert (handlersApp (addDevtoolsAll ((app, store) :: later)
                         (initialWorld h clock toast)).2 = Some app) as Hh.
  { rewrite addDevtoolsAll_cons.
    destruct (addDevtools_setup_effects app store (initialWorld h clock toast))
      as (Hi1 & Hh1 & _).
    destruct (addDevtoolsAll_installed later _ Hi1) as (_ & Hh2 & _).
    etrans; [exact Hh2|exact Hh1]. }
  split; [exact Hh|]. unfold requestInspectorTree. rewrite Hh. split.
  - intros Hne. unfold getInspectorTree. rewrite decide_False; [done|].
    by intros [? _].
  - intros Happ Hid Hf. unfold getInspectorTree.
    rewrite decide_True by done. rewrite Hf, Hheap. simpl.
    by rewrite <-list_fmap_compose.
Qed.

(** The registry and [componentStateTypes] go together, and a store is
    registered under its own id. *)
Definition registryInv (w : World) : Prop :=
  componentStateTypes w = (λ kv, "🍍 " ++ kv.1) <$> registeredStores w ∧
  ∀ id r, (id, r) ∈ registeredStores w → _id (heap w !!! r) = id.

Lemma addDevtools_registryInv (app : App) (store : Ref) (w : World) :
  registryInv w → registryInv (addDevtools app store w).2.
Proof.
  intros [Htypes Hids].
  destruct (addDevtools_registry app store w) as (Hh & Hr & Hc).
  unfold registryInv. rewrite Hh, Hr, Hc.
  destruct (Map_has (registeredStores w) (_id (heap w !!! store))); [done|].
  split.
  - by rewrite fmap_app, Htypes.
  - intros id r [Hin|Hin]%elem_of_app; [by apply Hids|].
    apply list_elem_of_singleton in Hin. by injection Hin as -> ->.
Qed.

Lemma addDevtools_get_stable (app : App) (store : Ref) (w : World)
    (id : string) (r : Ref) :
  Map_get (registeredStores w) id = Some r →
  Map_get (registeredStores (addDevtools app store w).2) id = Some r.
Proof.
  intros Hg. destruct (addDevtools_registry app store w) as (_ & -> & _).
  destruct (Map_has (registeredStores w) (_id (heap w !!! store))); [done|].
  by apply Map_get_app_Some.
Qed.

Lemma addDevtools_get_new (app : App) (store : Ref) (w : World) :
  _id (heap w !!! store) ∉ (registeredStores w).*1 →
  Map_get (registeredStores (addDevtools app store w).2) (_id (heap w !!! store))
    = Some store.
Proof.
  intros Hnew. destruct (addDevtools_registry app store w) as (_ & -> & _).
  destruct (Map_has (registeredStores w) (_id (heap w !!! store))) eqn:Hhas.
  - apply Map_has_true in Hhas. done.
  - by apply Map_get_app_fresh.
Qed.

Lemma addDevtoolsAll_registry (calls : list (App * Ref)) (w : World) :
  let w' := (addDevtoolsAll calls w).2 in
  (registryInv w → registryInv w') ∧
  (∀ id r, Map_get (registeredStores w) id = Some r →
           Map_get (registeredStores w') id = Some r) ∧
  (∀ id, id ∈ (registeredStores w').*1 →
         id ∈ (registeredStores w).*1 ∨
         ∃ call, call ∈ calls ∧ _id (heap w !!! call.2) = id).
Proof.
  revert w. induction calls as [|[app store] calls IH]; intros w.
  - simpl. split; [done|]. split; [done|]. by left.
  - cbv zeta. rewrite addDevtoolsAll_cons.
    destruct (IH (addDevtools app store w).2) as (Hinv & Hget & Hkeys).
    destruct (addDevtools_registry app store w) as (Hh & Hr & _).
    split; [|split].
    + intros Hw. by apply Hinv, addDevtools_registryInv.
    + intros id r Hg. by apply Hget, addDevtools_get_stable.
    + intros id Hin. destruct (Hkeys id Hin) as [Hold|(call & Hc & Hid)].
      * rewrite Hr in Hold.
        destruct (Map_has (registeredStores w) (_id (heap w !!! store)));
          [by left|].
        rewrite fmap_app in Hold. apply elem_of_app in Hold as [?|Hnew];
          [by left|].
        right. exists (app, store). split; [left|].
        simpl in Hnew. by apply list_elem_of_singleton in Hnew.
      * right. exists call. split; [by right|]. by rewrite <-Hh.
Qed.

(** X11. The registry keeps, under each id, the store that was registered
    first under it: a later registration of another store object with the
    same id does not replace it.  All along, [componentStateTypes] lists the
    registered ids, each behind the emblem and in registration order, and
    every store is registered under its own id. *)
Theorem registry_keeps_first_store (h : Heap) (clock : Z) (toast : bool)
    (before after : list (App * Ref)) (app : App) (store : Ref) :
  (∀ call, call ∈ before → _id (h !!! call.2) ≠ _id (h !!! store)) →
  let w := (addDevtoolsAll (before ++ (app, store) :: after)
              (initialWorld h clock toast)).2 in
  Map_get (registeredStores w) (_id (h !!! store)) = Some store ∧
  componentStateTypes w = (λ kv, "🍍 " ++ kv.1) <$> registeredStores w ∧
  (∀ id r, Map_get (registeredStores w) id = Some r → _id (h !!! r) = id).
Proof.
  intros Hbefore. cbv zeta. unfold addDevtoolsAll. rewrite forEach_app.
  fold (addDevtoolsAll before (initialWorld h clock toast)).
  fold (addDevtoolsAll ((app, store) :: after)
          (addDevtoolsAll before (initialWorld h clock toast)).2).
  rewrite addDevtoolsAll_cons.
  destruct (addDevtoolsAll_registry before (initialWorld h clock toast))
    as (Hinv0 & _ & Hkeys0).
  destruct (addDevtoolsAll_facts before (initialWorld h clock toast)) as (Hh0 & _).
  set (w0 := (addDevtoolsAll before (initialWorld h clock toast)).2) in *.
  simpl in Hh0.
  assert (registryInv w0) as Hw0.
  { apply Hinv0. split; [done|]. intros id r Hin. by apply elem_of_nil in Hin. }
  assert (_id (heap w0 !!! store) ∉ (registeredStores w0).*1) as Hnew.
  { rewrite Hh0. intros Hin. destruct (Hkeys0 _ Hin) as [Hnil|(call & Hc & Hid)].
    - simpl in Hnil. by apply elem_of_nil in Hnil.
    - simpl in Hid. by apply (Hbefore call). }
  pose proof (addDevtools_get_new app store w0 Hnew) as Hg1.
  pose proof (addDevtools_registryInv app store w0 Hw0) as Hw1.
  destruct (addDevtools_facts app store w0) as (Hh1 & _).
  set (w1 := (addDevtools app store w0).2) in *.
  destruct (addDevtoolsAll_registry after w1) as (Hinv2 & Hget2 & _).
  destruct (addDevtoolsAll_facts after w1) as (Hh2 & _).
  set (w2 := (addDevtoolsAll after w1).2) in *.
  destruct (Hinv2 Hw1) as [Htypes Hids].
  assert (heap w2 = h) as Hh by congruence.
  split; [|split].
  - rewrite <-Hh0. by apply Hget2.
  - exact Htypes.
  - intros id r Hg. rewrite <-Hh. by apply Hids, Map_get_Some_elem.
Qed.

End MoreRegistration.

(** *** Further properties of the timeline *)




Section MoreTimeline.
Context `{Collaborators}.













End MoreTimeline.

(** *** Further properties of the handlers *)

Section MoreInspector.
Context `{Collaborators}.

(** X14. The guards of the edit-inspector-state handler: a request of
    another application or for another inspector is ignored altogether; a
    request for a node id that is not registered is answered with a
    "not found" report of error severity, whatever its path, and neither a
    store nor the timeline-active flag is touched. *)
Theorem editInspectorState_guards (app : App) (payload : EditPayload) (w : World) :
  (¬ (ep_app payload = app ∧ ep_inspectorId payload = INSPECTOR_ID) →
   editInspectorState app payload w = (payload, w)) ∧
  (ep_app payload = app → ep_inspectorId payload = INSPECTOR_ID →
   Map_get (registeredStores w) (ep_nodeId payload) = None →
   let result := editInspectorState app payload w in
   result.1 = payload ∧
   result.2 = emit (report w (notFoundMessage (ep_nodeId payload)) (Some error)) w ∧
   reportedAs error (report w (notFoundMessage (ep_nodeId payload)) (Some error))
     = true ∧
   heap result.2 = heap w ∧
   isTimelineActive result.2 = isTimelineActive w).
Proof.
  split.
  - intros Hne. unfold editInspectorState. by rewrite decide_False.
  - intros Happ Hid Hg. cbv zeta. unfold editInspectorState.
    rewrite decide_True by done. rewrite Hg, toastMessage_report.
    repeat split; try done. unfold report. by destruct (toastHost w).
Qed.

Lemma storeIdOfType_emblem (id : string) :
  storeIdOfType ("🍍 " ++ id) = skipSpaces id.
Proof. reflexivity. Qed.

Lemma componentSet_paused (payload : ComponentEditPayload) (store : Ref)
    (path : list string) (w : World) :
  isTimelineActive w = false →
  componentSet payload store path w =
    (tt, setHeap (<[store := cp_set payload (heap w !!! store) path
                               (cp_value payload)]> (heap w)) w).
Proof.
  intros Ha. unfold componentSet. run. by rewrite notifySubscribers_paused.
Qed.

(** X15. From the component inspector back to the store.  The type of a
    group that [inspectComponent] shows for a store is accepted by
    [editComponentState]: when the id of the store does not start with
    white space and the store is registered, an edit under that type with a
    path that starts with "state" rewrites the first segment to "$state",
    applies the host's setter to that store, emits nothing and leaves the
    timeline active. *)
Theorem editComponentState_of_entry (payload : ComponentEditPayload) (w : World)
    (store : Ref) (entry : StateEntry) (rest : list string) :
  entry ∈ entriesOf (heap w !!! store) →
  cp_type payload = se_type entry →
  skipSpaces (_id (heap w !!! store)) = _id (heap w !!! store) →
  Map_get (registeredStores w) (_id (heap w !!! store)) = Some store →
  cp_path payload = "state" :: rest →
  let result := editComponentState payload w in
  cp_path result.1 = "$state" :: rest ∧
  heap result.2 =
    <[store := cp_set payload (heap w !!! store) ("$state" :: rest)
                 (cp_value payload)]> (heap w) ∧
  effects result.2 = effects w ∧
  isTimelineActive result.2 = true.
Proof.
  intros Hentry Htype Hid Hg Hp.
  assert (se_type entry = "🍍 " ++ _id (heap w !!! store)) as Hse.
  { unfold entriesOf in Hentry.
    apply elem_of_cons in Hentry as [->|Hentry]; [done|].
    destruct (_getters (heap w !!! store)) as [[|name names]|];
      try by apply elem_of_nil in Hentry.
    by apply list_elem_of_singleton in Hentry as ->. }
  cbv zeta. unfold editComponentState. rewrite Htype, Hse.
  change (startsWith ("🍍 " ++ _id (heap w !!! store)) "🍍") with true.
  cbv iota. rewrite storeIdOfType_emblem, Hid, Hg, Hp.
  rewrite (decide_True (P := head ("state" :: rest) = Some "state")) by done.
  unfold rewriteFirst. cbv zeta.
  rewrite componentSet_paused by done. done.
Qed.

(** X16. What [editComponentState] refuses.  A type that does not start
    with the emblem is not pinia's: nothing happens.  Behind the emblem,
    white space is dropped before the id is looked up, so a type made of the
    emblem, a space and an id addresses the store registered under the id
    without its leading white space; when there is none, the answer is a
    "not found" report of error severity.  A path that does not start with
    "state" is reported without a severity.  In neither case is a store
    touched. *)
Theorem editComponentState_refusals (payload : ComponentEditPayload) (w : World) :
  (startsWith (cp_type payload) "🍍" = false →
   editComponentState payload w = (payload, w)) ∧
  (∀ id, cp_type payload = "🍍 " ++ id →
     Map_get (registeredStores w) (skipSpaces id) = None →
     editComponentState payload w =
       (payload, emit (report w (notFoundMessage (skipSpaces id)) (Some error)) w)) ∧
  (∀ id store, cp_type payload = "🍍 " ++ id →
     Map_get (registeredStores w) (skipSpaces id) = Some store →
     head (cp_path payload) ≠ Some "state" →
     editComponentState payload w =
       (payload,
        emit (report w (invalidPathMessage (skipSpaces id) (cp_path payload)) None) w)).
Proof.
  split; [|split].
  - intros Hs. unfold editComponentState. by rewrite Hs.
  - intros id Htype Hg. unfold editComponentState. rewrite Htype.
    change (startsWith ("🍍 " ++ id) "🍍") with true. cbv iota.
    by rewrite storeIdOfType_emblem, Hg, toastMessage_report.
  - intros id store Htype Hg Hp. unfold editComponentState. rewrite Htype.
    change (startsWith ("🍍 " ++ id) "🍍") with true. cbv iota.
    rewrite storeIdOfType_emblem, Hg. cbv zeta.
    by rewrite decide_False, toastMessage_report.
Qed.


(** A store has getters to show when [_getters] is a non-empty array. *)
Definition showsGetters (store : Store) : Prop :=
  match _getters store with
  | Some (_ :: _) => True
  | _ => False
  end.

#[local] Instance showsGetters_dec (store : Store) : Decision (showsGetters store).
Proof.
  unfold showsGetters. destruct (_getters store) as [[|? ?]|]; apply _.
Defined.



(** X18. [devtoolsPlugin] registers the store: its effect on the state is
    that of [addDevtools], after which the store's id is in the registry.
    The object it returns has a wrapper under every declared name, also
    under a name the store has no function for; that wrapper throws on
    every call. *)
Theorem devtoolsPlugin_registers (ctx : PiniaPluginContext) (w : World) :
  let result := devtoolsPlugin ctx w in
  result.2 = (addDevtools (ctx_app ctx) (ctx_store ctx) w).2 ∧
  Map_has (registeredStores result.2) (_id (heap w !!! ctx_store ctx)) = true ∧
  (∀ name, is_Some (result.1 !! name) ↔ name ∈ default [] (ctx_optionsActions ctx)) ∧
  (∀ name, name ∈ default [] (ctx_optionsActions ctx) →
     ctx_storeMethods ctx !! name = None →
     ∃ wrapper, result.1 !! name = Some wrapper ∧
                ∀ arguments w', wrapper arguments w' = None).
Proof.
  cbv zeta.
  assert ((devtoolsPlugin ctx w).2 = (addDevtools (ctx_app ctx) (ctx_store ctx) w).2)
    as Hw.
  { unfold devtoolsPlugin. run.
    by destruct (addDevtools (ctx_app ctx) (ctx_store ctx) w) as [[] w']. }
  split; [exact Hw|]. split; [|split].
  - rewrite Hw. apply Map_has_true.
    by destruct (addDevtools_facts (ctx_app ctx) (ctx_store ctx) w)
      as (_ & _ & _ & _ & _ & Hin).
  - intros name. rewrite devtoolsPlugin_lookup.
    destruct (decide (name ∈ default [] (ctx_optionsActions ctx))) as [Hin|Hout].
    + split; [done|eauto].
    + split; [by intros [? ?]|done].
  - intros name Hin Hm.
    exists (wrappedAction ctx (originalActions ctx) name).
    rewrite devtoolsPlugin_lookup, decide_True by done. split; [done|].
    intros arguments w'. unfold wrappedAction.
    rewrite originalActions_lookup, decide_True by done. by rewrite Hm.
Qed.

Lemma append_nil_r (s : string) : s ++ "" = s.
Proof. induction s as [|a s IH]; [done|]. by rewrite append_cons, IH. Qed.

(** X19. Edge cases of the filter of the inspector tree.  An empty filter
    string counts as no filter: all registered stores are listed.  Under any
    filter the nodes are among those listed without a filter, in the same
    order.  A registered store is found by any filter that is its id up to
    letter case. *)
Theorem getInspectorTree_filter_edges (app : App) (payload : TreePayload) (w : World) :
  tp_app payload = app → tp_inspectorId payload = INSPECTOR_ID →
  let stores := (λ r, heap w !!! r) <$> Map_values (registeredStores w) in
  let nodes := tp_rootNodes (getInspectorTree app payload w).1 in
  (tp_filter payload = Some "" → nodes = formatStoreForInspectorTree <$> stores) ∧
  sublist nodes (formatStoreForInspectorTree <$> stores) ∧
  (∀ r f, r ∈ Map_values (registeredStores w) →
     tp_filter payload = Some f → f ≠ "" →
     toLowerCase f = toLowerCase (_id (heap w !!! r)) →
     formatStoreForInspectorTree (heap w !!! r) ∈ nodes).
Proof.
  intros Happ Hid. cbv zeta. unfold getInspectorTree.
  rewrite decide_True by done. cbn [fst tp_rootNodes]. split; [|split].
  - by intros ->.
  - apply fmap_sublist.
    destruct (filterGiven (tp_filter payload)); [apply sublist_filter|done].
  - intros r f Hr -> Hf Hlow. destruct f as [|a f]; [done|]. cbn [filterGiven].
    apply list_elem_of_fmap. exists (heap w !!! r). split; [done|].
    apply list_elem_of_filter. split.
    + rewrite Hlow. apply includes_spec. exists "", "".
      by rewrite append_nil_l, append_nil_r.
    + apply list_elem_of_fmap. by exists r.
Qed.

End MoreInspector.

(** *** The further properties on the sample data *)

Section MoreOnSamples.
Import Samples.

Lemma inspector_bound_to_first_app_witness :
  let w := (addDevtoolsAll [(7, 0); (8, 1)] (initialWorld stores 1000 false)).2 in
  let request := mkTreePayload 8 "pinia" None [] in
  handlersApp w = Some 7 ∧
  Map_values (registeredStores w) = [0; 1] ∧
  tp_rootNodes (requestInspectorTree request w).1 = [].
Proof.
  cbv zeta.
  destruct (inspector_bound_to_first_app stores 1000 false 7 0 [(8, 1)]
              (mkTreePayload 8 "pinia" None [])) as (Hh & Hother & _).
  split; [exact Hh|]. split; [reflexivity|].
  assert (tp_app (mkTreePayload 8 "pinia" None []) ≠ 7) as Hne by discriminate.
  exact (f_equal (λ r : TreePayload * World, tp_rootNodes r.1) (Hother Hne)).
Defined.

Lemma registry_keeps_first_store_witness :
  let w := (addDevtoolsAll [(7, 1); (7, 0); (8, 2)]
              (initialWorld storesMore 1000 false)).2 in
  _id (storesMore !!! 2) = _id (storesMore !!! 0) ∧
  Map_get (registeredStores w) "counter" = Some 0 ∧
  componentStateTypes w = ["🍍 Cart"; "🍍 counter"].
Proof.
  cbv zeta.
  assert (∀ call : App * Ref, call ∈ [(7, 1)] →
            _id (storesMore !!! call.2) ≠ _id (storesMore !!! 0)) as Hbefore.
  { intros call ->%list_elem_of_singleton. discriminate. }
  destruct (registry_keeps_first_store storesMore 1000 false [(7, 1)] [(8, 2)] 7 0
              Hbefore) as (Hget & Htypes & _).
  split; [reflexivity|]. split; [exact Hget|].
  etrans; [exact Htypes|reflexivity].
Defined.


Lemma editComponentState_of_entry_witness :
  let request := mkComponentEdit "🍍 counter" ["state"; "count"] (VNum 5) deepSet in
  let result := editComponentState request (installed false) in
  se_type <$> ip_state (inspectComponent (mkInspect (Some [0]) []) (installed false)).1
    = ["🍍 counter"] ∧
  cp_path result.1 = ["$state"; "count"] ∧
  _state <$> heap result.2 !! 0 = Some (VObj [("count", VNum 5)]) ∧
  effects result.2 = effects (installed false).
Proof.
  cbv zeta.
  destruct (editComponentState_of_entry
              (mkComponentEdit "🍍 counter" ["state"; "count"] (VNum 5) deepSet)
              (installed false) 0
              (mkEntry "🍍 counter" "state" true (VObj [("count", VNum 0)]))
              ["count"])
    as (Hpath & Hheap & Heff & _); [left|reflexivity..|].
  split; [reflexivity|]. split; [exact Hpath|]. split; [|exact Heff].
  rewrite Hheap. reflexivity.
Defined.

(** A store whose id starts with a space is shown by the component
    inspector, but the type it is shown under does not lead back to it. *)
Lemma editComponentState_refusals_witness :
  let w := (addDevtools 7 3 (initialWorld storesMore 1000 false)).2 in
  let shown := ip_state (inspectComponent (mkInspect (Some [3]) []) w).1 in
  let request := mkComponentEdit "🍍  draft" ["state"; "title"] (VStr "x") deepSet in
  registeredStores w = [(" draft", 3)] ∧
  se_type <$> shown = [cp_type request] ∧
  editComponentState request w =
    (request,
     emit (ConsoleError ("🍍 store " ++ dquote ++ "draft" ++ dquote ++ " not found")) w).
Proof.
  cbv zeta.
  destruct (editComponentState_refusals
              (mkComponentEdit "🍍  draft" ["state"; "title"] (VStr "x") deepSet)
              (addDevtools 7 3 (initialWorld storesMore 1000 false)).2)
    as (_ & Hmissing & _).
  split; [reflexivity|]. split; [reflexivity|].
  rewrite (Hmissing " draft"); reflexivity.
Defined.

Lemma getInspectorTree_filter_edges_witness :
  let w := installed false in
  tp_rootNodes (getInspectorTree 7 (mkTreePayload 7 "pinia" (Some "") []) w).1
    = [mkNode "counter" "counter"; mkNode "Cart" "Cart"] ∧
  mkNode "Cart" "Cart"
    ∈ tp_rootNodes (getInspectorTree 7 (mkTreePayload 7 "pinia" (Some "CART") []) w).1.
Proof.
  cbv zeta. split.
  - destruct (getInspectorTree_filter_edges 7 (mkTreePayload 7 "pinia" (Some "") [])
                (installed false) eq_refl eq_refl) as (Hall & _).
    rewrite (Hall eq_refl). reflexivity.
  - destruct (getInspectorTree_filter_edges 7 (mkTreePayload 7 "pinia" (Some "CART") [])
                (installed false) eq_refl eq_refl) as (_ & _ & Hfound).
    apply (Hfound 1 "CART"); [right; left|reflexivity|discriminate|reflexivity].
Defined.

End MoreOnSamples.

End DevtoolsSpec.
